(** * The training processor of mmskeleton ([train.py])

    A shallow embedding of [Processor] and of the pieces of Python, of numpy
    and of the tensor library its methods rely on, followed by the properties
    of the processor stated in the specification.

    Conventions of the embedding:
    - Python [int] is [Z]; Python [float] is an exact rational [Q] (the
      rounding of binary floating point is not modelled);
    - a [dict] with string keys is a [gmap string _], a Python 2 [str] is a
      [string];
    - an exception is a value of [exn] carried by [result];
    - what reaches the processor from outside (the clock, the batches of a
      loader, the outputs of the network, the pickled form of an object) is
      an input of the embedded function, gathered in [Env] and in the [now]
      field of [World]. *)

From Stdlib Require Import ZArith QArith Qpower Qround Qabs Lia Lqa.
From stdpp Require Import base gmap strings list fin_maps pretty.

Open Scope Z_scope.

(** ** Exceptions *)

Inductive exn : Type :=
| ZeroDivisionError
| ValueError
| KeyError (key : string)
| KeyMismatch (unexpected missing : list string).

Inductive result (A : Type) : Type :=
| Ok (a : A)
| Raise (e : exn).
Arguments Ok {A} a.
Arguments Raise {A} e.

(** ** Python built-ins *)

Module Py.

(** [a % b] on integers: the result has the sign of [b], and a zero
    divisor raises. *)
Definition mod_ (a b : Z) : result Z :=
  if b =? 0 then Raise ZeroDivisionError else Ok (a mod b).

(** [range(lo, hi)]. *)
Definition range (lo hi : Z) : list Z :=
  map (fun i : nat => lo + Z.of_nat i) (seq 0 (Z.to_nat (hi - lo))).

(** [sum] of a sequence of floats. *)
Definition sum (xs : list Q) : Q := fold_left Qplus xs 0%Q.

(** [x / y] on floats. *)
Definition div (x y : Q) : result Q :=
  if Qeq_bool y 0 then Raise ZeroDivisionError else Ok (x / y)%Q.

(** [int(round(x))]: Python 2 rounds to the nearest integer, halves away
    from zero. *)
Definition round (x : Q) : Z :=
  if Qle_bool 0 x then Qfloor (x + (1 # 2)) else Qceiling (x - (1 # 2)).

(** [zip]: stops with the shorter sequence. *)
Fixpoint zip {A B} (xs : list A) (ys : list B) : list (A * B) :=
  match xs, ys with
  | x :: xs', y :: ys' => (x, y) :: zip xs' ys'
  | _, _ => []
  end.

(** [dict(pairs)]: a later pair replaces an earlier one with the same key. *)
Definition dict {V} (pairs : list (string * V)) : gmap string V :=
  fold_left (fun m kv => <[kv.1 := kv.2]> m) pairs ∅.

(** [d.pop(k, None)]: the value under [k], if any, and the dict without [k]. *)
Definition pop {V} (k : string) (d : gmap string V) : option V * gmap string V :=
  (d !! k, delete k d).

(** [d.update(e)]: every entry of [e] is written into [d]. *)
Definition update {V} (d e : gmap string V) : gmap string V := e ∪ d.

End Py.

(** ** numpy *)

Module Np.

(** [np.sum] of a boolean array: the number of [True] entries. *)
Definition sum (bs : list bool) : Z :=
  fold_right (fun (b : bool) n => Z.b2z b + n) 0 bs.

(** [np.mean]: of an empty list it is [nan], here [None]. *)
Definition mean (xs : list Q) : option Q :=
  match xs with
  | [] => None
  | _ => Some (Py.sum xs / inject_Z (Z.of_nat (length xs)))%Q
  end.

(** [np.concatenate] along the first axis: an empty list of arrays raises. *)
Definition concatenate {A} (frags : list (list A)) : result (list A) :=
  match frags with
  | [] => Raise ValueError
  | _ => Ok (concat frags)
  end.

End Np.

(** ** The parsed command line ([self.arg]) *)

(** The options the processor reads. [arg_print_log] is [self.arg.print_log]:
    the method [print_log] has the plain name. *)
Record Arg : Type := {
  work_dir : string;
  log_interval : Z;
  save_interval : Z;
  eval_interval : Z;
  arg_print_log : bool;
  show_topk : list Z;
  weights : option string;
  ignore_weights : list string;
  phase : string;
  step : list Z;
  optimizer : string;
  start_epoch : Z;
  num_epoch : Z;
  base_lr : Q
}.

(** ** Tensors and the model layer *)

(** A tensor is the sequence of its numbers; its shape is not modelled, so a
    copy between two tensors of the same name is taken to succeed. *)
Definition tensor : Type := list Q.

Abbreviation state_dict := (gmap string tensor).

(** What [load_state_dict] has copied into the module's own tensors: the
    entries of [sd] whose names the module has. *)
Definition copy_matching (own sd : state_dict) : state_dict :=
  filter (fun kv => kv.1 ∈ dom own) sd ∪ own.

(** [torch.nn.Module.load_state_dict(sd)] as [load_model] calls it, with the
    library's default strict key check: a key of [sd] the module lacks, or a
    key of the module [sd] lacks, raises (a [KeyError] in the library of the
    source's time, a [RuntimeError] since). The first component is the
    module's state after the call, which is mutated in place; a call that
    raises may have copied entries already (all the matching ones here, fewer
    in the versions that stop at the first unexpected key). *)
Definition load_state_dict (own sd : state_dict) : state_dict * result unit :=
  let unexpected := elements (dom sd ∖ dom own) in
  let missing := elements (dom own ∖ dom sd) in
  (copy_matching own sd,
   match unexpected, missing with
   | [], [] => Ok ()
   | _, _ => Raise (KeyMismatch unexpected missing)
   end).

(** ** Checkpoint reconciliation ([load_model], lines 67-87) *)

(** ['Sucessfully Remove Weights: {}.'.format(w)] *)
Definition removed_line (w : string) : string :=
  "Sucessfully Remove Weights: " +:+ w +:+ ".".

(** ['Can Not Remove Weights: {}.'.format(w)] *)
Definition kept_line (w : string) : string :=
  "Can Not Remove Weights: " +:+ w +:+ ".".

(** The body of the loop over [ignore_weights]: the name is popped from the
    snapshot and one of the two lines is printed, by what [pop] returned (a
    tensor is never [None]). *)
Definition remove_step (acc : state_dict * list string) (w : string)
  : state_dict * list string :=
  let '(v, ws') := Py.pop w acc.1 in
  (ws', acc.2 ++ [match v with Some _ => removed_line w | None => kept_line w end]).

Definition remove_ignored (ignore : list string) (ws : state_dict)
  : state_dict * list string :=
  fold_left remove_step ignore (ws, []).

(** The [try] / [except] around [load_state_dict]. The result is the state of
    the model, the lines printed, and whether the second, unguarded
    [load_state_dict] raised. *)
Definition reconcile (own ws : state_dict)
  : state_dict * list string * result unit :=
  match load_state_dict own ws with
  | (own', Ok _) => (own', [], Ok ())
  | (own', Raise _) =>
      let state := own' in
      let diff := elements (dom state ∖ dom ws) in
      let out := "Can not find these weights:" :: map (String.append "  ") diff in
      let state' := Py.update state ws in
      let '(own'', r) := load_state_dict own' state' in
      (own'', out, r)
  end.

(** [load_model] from the point where the model has been built: [own] is its
    fresh [state_dict()], [ignore] is [self.arg.ignore_weights], [path] is
    [self.arg.weights], [snapshot] is what [pickle.load] returns from that
    file. The result is the state of the model, the lines printed, and
    whether the method raised. *)
Definition load_model (ignore : list string) (path : option string)
    (own snapshot : state_dict) : state_dict * list string * result unit :=
  match path with
  | None => (own, [], Ok ())
  | Some p =>
      if bool_decide (p = "") then (own, [], Ok ())
      else
        let '(ws, removed) := remove_ignored ignore snapshot in
        let '(own', out, r) := reconcile own ws in
        (own', ("Load weights from " +:+ p +:+ ".") :: removed ++ out, r)
  end.

(** ** Learning-rate schedule *)

(** [load_optimizer]: both supported optimizers are built over
    [self.model.parameters()], which makes one parameter group, whose ['lr']
    is [base_lr]; any other name raises. The result is the ['lr'] of each
    parameter group. *)
Definition load_optimizer (arg : Arg) : result (list Q) :=
  if bool_decide (optimizer arg = "SGD") then Ok [base_lr arg]
  else if bool_decide (optimizer arg = "Adam") then Ok [base_lr arg]
  else Raise ValueError.

(** The expression [base_lr * (0.1 ** np.sum(epoch >= np.array(step)))]. *)
Definition learning_rate (base_lr : Q) (epoch : Z) (step : list Z) : Q :=
  (base_lr * (1 # 10) ^ Np.sum (map (fun s => epoch >=? s) step))%Q.

(** [adjust_learning_rate]: returns the rate and the parameter groups with
    their ['lr'] overwritten by it. *)
Definition adjust_learning_rate (arg : Arg) (param_groups : list Q) (epoch : Z)
  : result (Q * list Q) :=
  if bool_decide (optimizer arg = "SGD") || bool_decide (optimizer arg = "Adam")
  then
    let lr := learning_rate (base_lr arg) epoch (step arg) in
    Ok (lr, map (fun _ => lr) param_groups)
  else Raise ValueError.

(** The number of step boundaries at or below an epoch, as the
    specification words it. *)
Definition boundaries_reached (epoch : Z) (step : list Z) : Z :=
  Z.of_nat (length (filter (fun s => s ≤ epoch) step)).

(** ** The processor's world *)

(** A batch as a loader delivers it: [(data, label)]. *)
Definition batch : Type := tensor * list Z.

(** One entry of [self.data_loader]: the batches of one pass (the pass of a
    given epoch: a shuffled loader delivers a different order each time) and
    the two members of its dataset that [eval] uses. *)
Record Loader : Type := {
  batches : Z -> list batch;
  sample_name : list string;
  top_k : list tensor -> Z -> Q
}.

(** The collaborators of the processor. *)
Record Env : Type := {
  (** [self.data_loader] *)
  data_loader : gmap string Loader;
  (** forward pass, loss, [zero_grad], [backward] and [optimizer.step] on one
      batch, at the rate the parameter groups hold: the parameters after the
      step and [loss.data[0]] *)
  train_step : state_dict -> list Q -> batch -> state_dict * Q;
  (** forward pass and loss in evaluation mode: the rows of
      [output.data.cpu().numpy()] and [loss.data[0]] *)
  infer : state_dict -> batch -> list tensor * Q;
  (** [pickle.dump] of a dict of tensors: the characters written *)
  pickled : state_dict -> string
}.

(** The formatted part of a [print_log] line. *)
Inductive msg : Type :=
| TrainingEpoch (n : Z)
| BatchDone (batch_idx n_batches : Z) (loss lr : Q)
| MeanTrainingLoss (mean : option Q)
| TimeConsumption (data network : Z)
| ModelSaved (path : string)
| EvalEpoch (n : Z)
| MeanLoss (ln : string) (n_batches : Z) (mean : option Q)
| TopK (k : Z) (percent : Q).

(** A printed line: a plain [print], or a [print_log] with its time stamp
    (the clock reading it was made from). *)
Inductive line : Type :=
| Plain (s : string)
| Stamped (t : Q) (m : msg).

Record World : Type := {
  now : nat -> Q;              (** what the k-th call of [time.time()] returns *)
  ticks : nat;                 (** the calls of [time.time()] so far *)
  cur_time : Q;                (** [self.cur_time] *)
  param_groups : list Q;       (** ['lr'] of [self.optimizer.param_groups] *)
  model : state_dict;          (** [self.model.state_dict()] *)
  files : gmap string string;  (** the files, by path *)
  stdout : list line;          (** the lines printed *)
  log_txt : list line          (** the lines appended to [log.txt] *)
}.

Definition set_ticks (n : nat) (w : World) : World :=
  {| now := now w; ticks := n; cur_time := cur_time w;
     param_groups := param_groups w; model := model w; files := files w;
     stdout := stdout w; log_txt := log_txt w |}.

Definition set_cur_time (t : Q) (w : World) : World :=
  {| now := now w; ticks := ticks w; cur_time := t;
     param_groups := param_groups w; model := model w; files := files w;
     stdout := stdout w; log_txt := log_txt w |}.

Definition set_param_groups (g : list Q) (w : World) : World :=
  {| now := now w; ticks := ticks w; cur_time := cur_time w;
     param_groups := g; model := model w; files := files w;
     stdout := stdout w; log_txt := log_txt w |}.

Definition set_model (m : state_dict) (w : World) : World :=
  {| now := now w; ticks := ticks w; cur_time := cur_time w;
     param_groups := param_groups w; model := m; files := files w;
     stdout := stdout w; log_txt := log_txt w |}.

Definition set_files (f : gmap string string) (w : World) : World :=
  {| now := now w; ticks := ticks w; cur_time := cur_time w;
     param_groups := param_groups w; model := model w; files := f;
     stdout := stdout w; log_txt := log_txt w |}.

Definition set_stdout (o : list line) (w : World) : World :=
  {| now := now w; ticks := ticks w; cur_time := cur_time w;
     param_groups := param_groups w; model := model w; files := files w;
     stdout := o; log_txt := log_txt w |}.

Definition set_log_txt (o : list line) (w : World) : World :=
  {| now := now w; ticks := ticks w; cur_time := cur_time w;
     param_groups := param_groups w; model := model w; files := files w;
     stdout := stdout w; log_txt := o |}.

(** ** Statements that read and write a state and may raise *)

Definition Exec (S A : Type) : Type := S -> result A * S.

#[global] Instance Exec_ret {S} : MRet (Exec S) :=
  fun A (a : A) s => (Ok a, s).

#[global] Instance Exec_bind {S} : MBind (Exec S) :=
  fun A B (f : A -> Exec S B) (m : Exec S A) s =>
    match m s with
    | (Ok a, s') => f a s'
    | (Raise e, s') => (Raise e, s')
    end.

Definition get {S} : Exec S S := fun s => (Ok s, s).

Definition modify {S} (f : S -> S) : Exec S unit := fun s => (Ok (), f s).

(** A value or an exception computed without the state. *)
Definition lift {S A} (r : result A) : Exec S A := fun s => (r, s).

(** [for x in xs: body]. *)
Fixpoint for_ {S A} (xs : list A) (body : A -> Exec S unit) : Exec S unit :=
  match xs with
  | [] => mret ()
  | x :: xs' => body x ;; for_ xs' body
  end.

Abbreviation M := (Exec World).

(** ** Timing and logging *)

(** [time.time()]: the next reading of the clock. *)
Definition time_time : M Q :=
  fun w => (Ok (now w (ticks w)), set_ticks (S (ticks w)) w).

(** [print(s)] *)
Definition print (l : line) : M unit :=
  modify (fun w => set_stdout (stdout w ++ [l]) w).

(** [print_log(str, print_time)]: the time stamp takes one reading of the
    clock. *)
Definition print_log (arg : Arg) (m : msg) : M unit :=
  t ← time_time;
  print (Stamped t m) ;;
  if arg_print_log arg
  then modify (fun w => set_log_txt (log_txt w ++ [Stamped t m]) w)
  else mret ().

Definition record_time : M Q :=
  t ← time_time;
  modify (set_cur_time t) ;;
  mret t.

Definition split_time : M Q :=
  t ← time_time;
  w ← get;
  let split_time := (t - cur_time w)%Q in
  record_time ;;
  mret split_time.

(** The dict [timer] of [train]; [model_] is its key ['model']. *)
Record Timer : Type := {
  dataloader : Q;
  model_ : Q;
  statistics : Q
}.

(** [dict(dataloader=0.001, model=0.001, statistics=0.001)] *)
Definition timer_seed : Timer :=
  {| dataloader := 1 # 1000; model_ := 1 # 1000; statistics := 1 # 1000 |}.

(** [sum(timer.values())] *)
Definition timer_total (t : Timer) : Q :=
  Py.sum [dataloader t; model_ t; statistics t].

(** The dict [proportion] of [train], before its values are formatted as
    ['{:02d}%']: [int(round(v*100/sum(timer.values())))] for each bucket. *)
Record Proportion : Type := {
  p_dataloader : Z;
  p_model : Z;
  p_statistics : Z
}.

Definition proportion (t : Timer) : result Proportion :=
  match Py.div (dataloader t * 100) (timer_total t),
        Py.div (model_ t * 100) (timer_total t),
        Py.div (statistics t * 100) (timer_total t) with
  | Ok d, Ok m, Ok s =>
      Ok {| p_dataloader := Py.round d; p_model := Py.round m; p_statistics := Py.round s |}
  | Raise e, _, _ | _, Raise e, _ | _, _, Raise e => Raise e
  end.

(** ** Files *)

(** The steps a file write is made of. [FsRename] is what an atomic
    replacement would end with. *)
Inductive fs_op : Type :=
| FsOpenW (path : string)
| FsWrite (path : string) (c : Ascii.ascii)
| FsClose (path : string)
| FsRename (src dst : string).

Definition fs_step (fs : gmap string string) (op : fs_op) : gmap string string :=
  match op with
  | FsOpenW p => <[p := ""]> fs
  | FsWrite p c => alter (fun s => s +:+ String c "") p fs
  | FsClose p => fs
  | FsRename src dst =>
      match fs !! src with
      | Some s => <[dst := s]> (delete src fs)
      | None => fs
      end
  end.

Definition fs_run (ops : list fs_op) (fs : gmap string string) : gmap string string :=
  fold_left fs_step ops fs.

(** [with open(path, 'w') as f: pickle.dump(obj, f)], where [data] is the
    pickled form of [obj]: the file is opened for writing, which empties it,
    the characters are written in order, and the file is closed. *)
Definition pickle_dump_ops (path data : string) : list fs_op :=
  FsOpenW path :: map (FsWrite path) (String.list_ascii_of_string data) ++ [FsClose path].

Definition pickle_dump (path data : string) : M unit :=
  modify (fun w => set_files (fs_run (pickle_dump_ops path data) (files w)) w).

(** The same write, stopped (by a failure or by the end of the process)
    after its first [n] steps. *)
Definition pickle_dump_interrupted (n : nat) (path data : string)
    (fs : gmap string string) : gmap string string :=
  fs_run (take n (pickle_dump_ops path data)) fs.

(** ** One epoch of training ([train]) *)

(** [self.data_loader[ln]] *)
Definition get_loader (env : Env) (ln : string) : M Loader :=
  match data_loader env !! ln with
  | Some l => mret l
  | None => lift (Raise (KeyError ln))
  end.

(** The checkpoint of an epoch: ['{}/epoch{}_model.pkl'.format(work_dir, epoch + 1)]. *)
Definition model_path (arg : Arg) (epoch : Z) : string :=
  work_dir arg +:+ "/epoch" +:+ pretty (epoch + 1) +:+ "_model.pkl".

(** The body of the loop over the batches, for the batch [b] at position
    [batch_idx]. *)
Definition train_batch (arg : Arg) (env : Env) (lr : Q) (n_batches : Z)
    (batch_idx : Z) (b : batch) (acc : Timer * list Q) : M (Timer * list Q) :=
  let '(timer, loss_value) := acc in
  (* get data *)
  d ← split_time;
  let timer := {| dataloader := dataloader timer + d; model_ := model_ timer;
                  statistics := statistics timer |}%Q in
  (* forward, backward *)
  w ← get;
  let '(m, loss) := train_step env (model w) (param_groups w) b in
  modify (set_model m) ;;
  d ← split_time;
  let timer := {| dataloader := dataloader timer; model_ := model_ timer + d;
                  statistics := statistics timer |}%Q in
  (* statistics *)
  let loss_value := loss_value ++ [loss] in
  r ← lift (Py.mod_ batch_idx (log_interval arg));
  (if r =? 0 then print_log arg (BatchDone batch_idx n_batches loss lr) else mret ()) ;;
  d ← split_time;
  let timer := {| dataloader := dataloader timer; model_ := model_ timer;
                  statistics := statistics timer + d |}%Q in
  mret (timer, loss_value).

(** [for batch_idx, (data, label) in enumerate(loader)], from position
    [batch_idx] on. *)
Fixpoint train_loop (arg : Arg) (env : Env) (lr : Q) (n_batches : Z)
    (batch_idx : Z) (bs : list batch) (acc : Timer * list Q) : M (Timer * list Q) :=
  match bs with
  | [] => mret acc
  | b :: bs' =>
      acc' ← train_batch arg env lr n_batches batch_idx b acc;
      train_loop arg env lr n_batches (batch_idx + 1) bs' acc'
  end.

(** [train] down to the end of the loop over the batches (lines 147-180):
    the dict [timer] and the list [loss_value] the loop leaves.
    [self.model.train()] and the conversions of [data] and [label] concern
    the network alone and have no counterpart here. *)
Definition train_batches (arg : Arg) (env : Env) (epoch : Z) : M (Timer * list Q) :=
  print_log arg (TrainingEpoch (epoch + 1)) ;;
  loader ← get_loader env "train";
  w ← get;
  r ← lift (adjust_learning_rate arg (param_groups w) epoch);
  let '(lr, groups) := r in
  modify (set_param_groups groups) ;;
  record_time ;;
  let bs := batches loader epoch in
  train_loop arg env lr (Z.of_nat (length bs)) 0 bs (timer_seed, []).

(** The write of the checkpoint (lines 188-193). *)
Definition save_checkpoint (arg : Arg) (env : Env) (epoch : Z) : M unit :=
  w ← get;
  pickle_dump (model_path arg epoch) (pickled env (model w)) ;;
  print_log arg (ModelSaved (model_path arg epoch)).

(** [train]: the loop, the percentages, the two lines of statistics and,
    when [save_model] is set, the checkpoint. *)
Definition train (arg : Arg) (env : Env) (epoch : Z) (save_model : bool) : M unit :=
  acc ← train_batches arg env epoch;
  let '(timer, loss_value) := acc in
  (* statistics of time consumption and loss *)
  p ← lift (proportion timer);
  print_log arg (MeanTrainingLoss (Np.mean loss_value)) ;;
  print_log arg (TimeConsumption (p_dataloader p) (p_model p)) ;;
  if save_model then save_checkpoint arg env epoch else mret ().

(** ** Evaluation ([eval]) *)

(** ['{}/epoch{}_{}_score.pkl'.format(work_dir, epoch + 1, ln)] *)
Definition score_path (arg : Arg) (epoch : Z) (ln : string) : string :=
  work_dir arg +:+ "/epoch" +:+ pretty (epoch + 1) +:+ "_" +:+ ln +:+ "_score.pkl".

(** The loop over the batches of a split: the output rows and the loss of
    each batch. *)
Definition eval_batches (env : Env) (m : state_dict) (bs : list batch)
  : list (list tensor) * list Q :=
  fold_left
    (fun (acc : list (list tensor) * list Q) b =>
       let '(output, loss) := infer env m b in
       (acc.1 ++ [output], acc.2 ++ [loss]))
    bs ([], []).

(** [dict(zip(self.data_loader[ln].dataset.sample_name, score))] *)
Definition score_dict (names : list string) (score : list tensor)
  : gmap string tensor :=
  Py.dict (Py.zip names score).

(** The body of the loop over [loader_name]. *)
Definition eval_split (arg : Arg) (env : Env) (epoch : Z) (save_score : bool)
    (ln : string) : M unit :=
  loader ← get_loader env ln;
  w ← get;
  let bs := batches loader epoch in
  let '(score_frag, loss_value) := eval_batches env (model w) bs in
  score ← lift (Np.concatenate score_frag);
  let sd := score_dict (sample_name loader) score in
  print_log arg (MeanLoss ln (Z.of_nat (length bs)) (Np.mean loss_value)) ;;
  for_ (show_topk arg)
    (fun k => print_log arg (TopK k (100 * top_k loader score k))) ;;
  if save_score then pickle_dump (score_path arg epoch ln) (pickled env sd)
  else mret ().

(** [eval]; [self.model.eval()] concerns the network alone. *)
Definition eval (arg : Arg) (env : Env) (epoch : Z) (save_score : bool)
    (loader_name : list string) : M unit :=
  print_log arg (EvalEpoch (epoch + 1)) ;;
  for_ loader_name (eval_split arg env epoch save_score).

(** ** The epoch loop ([start]) *)

Section Start.

(** [start] calls two methods of the processor; it is written over any
    state [S] and any pair of such methods. *)
Context {S : Type}.
Variable train_ : Z -> bool -> Exec S unit.
Variable eval_ : Z -> bool -> list string -> Exec S unit.

(** The body of [for epoch in range(start_epoch, num_epoch)]. *)
Definition start_epoch_body (arg : Arg) (epoch : Z) : Exec S unit :=
  r ← lift (Py.mod_ (epoch + 1) (save_interval arg));
  let save_model := (r =? 0) || (epoch + 1 =? num_epoch arg) in
  r ← lift (Py.mod_ (epoch + 1) (eval_interval arg));
  let eval_model := (r =? 0) || (epoch + 1 =? num_epoch arg) in
  train_ epoch save_model ;;
  if eval_model then eval_ epoch true ["test"] else mret ().

Definition start_with (arg : Arg) : Exec S unit :=
  if bool_decide (phase arg = "train") then
    for_ (Py.range (start_epoch arg) (num_epoch arg)) (start_epoch_body arg)
  else if bool_decide (phase arg = "test") then
    let epoch := start_epoch arg in
    eval_ epoch true ["test"]
  else mret ().

End Start.

(** [Processor.start] *)
Definition start (arg : Arg) (env : Env) : M unit :=
  start_with (train arg env) (eval arg env) arg.

(** The calls [start] makes, recorded in order: [start] over two methods
    that only note how they were called. *)
Inductive call : Type :=
| CallTrain (epoch : Z) (save_model : bool)
| CallEval (epoch : Z) (save_score : bool) (loader_name : list string).

Definition record_train (epoch : Z) (save_model : bool) : Exec (list call) unit :=
  modify (fun cs => cs ++ [CallTrain epoch save_model]).

Definition record_eval (epoch : Z) (save_score : bool) (loader_name : list string)
  : Exec (list call) unit :=
  modify (fun cs => cs ++ [CallEval epoch save_score loader_name]).

Definition start_calls (arg : Arg) : result unit * list call :=
  start_with record_train record_eval arg [].
(** ** Reading the recorded calls *)

(** The condition of the specification for an action every [interval]
    epochs: [(e+1) mod interval == 0] or [e+1 == num_epoch]. *)
Definition due (arg : Arg) (interval epoch : Z) : Prop :=
  (epoch + 1) mod interval = 0 ∨ epoch + 1 = num_epoch arg.

#[global] Instance due_dec arg interval epoch : Decision (due arg interval epoch).
Proof. unfold due. apply _. Defined.

(** Running recorded calls with the methods themselves, in order, up to the
    first one that raises. *)
Definition run_call {S} (train_ : Z -> bool -> Exec S unit)
    (eval_ : Z -> bool -> list string -> Exec S unit) (c : call) : Exec S unit :=
  match c with
  | CallTrain epoch save_model => train_ epoch save_model
  | CallEval epoch save_score loader_name => eval_ epoch save_score loader_name
  end.

Definition run_calls {S} (train_ : Z -> bool -> Exec S unit)
    (eval_ : Z -> bool -> list string -> Exec S unit) (cs : list call) : Exec S unit :=
  for_ cs (run_call train_ eval_).

(** The calls of one epoch of the Train phase, as the specification words
    them: the training step, which saves a checkpoint when one is due, then
    an evaluation with persistence when one is due. *)
Definition epoch_calls (arg : Arg) (e : Z) : list call :=
  CallTrain e (bool_decide (due arg (save_interval arg) e))
  :: if bool_decide (due arg (eval_interval arg) e)
     then [CallEval e true ["test"]] else [].

(** ** Statements about runs *)

(** From a state that satisfies [P], the run of [m] ends in a state and a
    value that satisfy [Q], or raises [e] in a state that satisfies [E e]. *)
Definition triple {S A} (P : S -> Prop) (m : Exec S A)
    (Q : A -> S -> Prop) (E : exn -> S -> Prop) : Prop :=
  forall s, P s ->
    match m s with
    | (Ok a, s') => Q a s'
    | (Raise e, s') => E e s'
    end.

(** The clock never runs backwards. *)
Definition clock_steady (w : World) : Prop :=
  forall i j : nat, (i <= j)%nat -> (now w i <= now w j)%Q.

(** ... and [self.cur_time] is a reading already made. *)
Definition clock_inv (w : World) : Prop :=
  clock_steady w /\ forall j : nat, (ticks w <= j)%nat -> (cur_time w <= now w j)%Q.

(** Every bucket of [t'] holds at least what it holds in [t]. *)
Definition timer_le (t t' : Timer) : Prop :=
  (dataloader t <= dataloader t')%Q /\ (model_ t <= model_ t')%Q
  /\ (statistics t <= statistics t')%Q.

(** What [eval] leaves alone: the parameters of the model, the parameter
    groups of the optimizer and the timer's [cur_time]; and the lines it
    prints are about the loss and the accuracy of a split. *)
Definition eval_line (l : line) : Prop :=
  match l with
  | Stamped _ (EvalEpoch _) | Stamped _ (MeanLoss _ _ _) | Stamped _ (TopK _ _) => True
  | _ => False
  end.

Definition eval_frame (w0 w : World) : Prop :=
  model w = model w0 /\ param_groups w = param_groups w0
  /\ cur_time w = cur_time w0 /\ now w = now w0
  /\ exists new, stdout w = stdout w0 ++ new /\ Forall eval_line new.

(** The first [n] characters of a string. *)
Definition string_take (n : nat) (s : string) : string :=
  String.string_of_list_ascii (take n (String.list_ascii_of_string s)).

(** ** Concrete runs *)

(** The defaults of the command line, with a work directory. *)
Definition arg_default : Arg :=
  {| work_dir := "work"; log_interval := 100; save_interval := 10;
     eval_interval := 5; arg_print_log := true; show_topk := [1; 5];
     weights := None; ignore_weights := []; phase := "train";
     step := [20; 40; 60]; optimizer := "SGD"; start_epoch := 0;
     num_epoch := 80; base_lr := 1 # 100 |}.

(** The same, for [--phase test --start-epoch 3]. *)
Definition arg_test : Arg :=
  {| work_dir := "work"; log_interval := 100; save_interval := 10;
     eval_interval := 5; arg_print_log := true; show_topk := [1; 5];
     weights := None; ignore_weights := []; phase := "test";
     step := [20; 40; 60]; optimizer := "SGD"; start_epoch := 3;
     num_epoch := 80; base_lr := 1 # 100 |}.

(** A test split of three named samples whose single batch yields two
    output rows, and a training split of one batch. *)
Definition loader_test : Loader :=
  {| batches := fun _ => [([0%Q], [0; 1])];
     sample_name := ["s1"; "s2"; "s3"];
     top_k := fun _ _ => 1%Q |}.

Definition loader_train : Loader :=
  {| batches := fun _ => [([0%Q], [0])];
     sample_name := ["t1"];
     top_k := fun _ _ => 1%Q |}.

Definition env_small : Env :=
  {| data_loader := {[ "train" := loader_train; "test" := loader_test ]};
     train_step := fun m _ _ => (m, 1%Q);
     infer := fun _ _ => ([[1 # 2; 1 # 2]; [1 # 4; 3 # 4]], 1%Q);
     pickled := fun _ => "pickle" |}.

(** A world whose clock advances by one second at each reading. *)
Definition world_ticking : World :=
  {| now := fun k => inject_Z (Z.of_nat k); ticks := 0; cur_time := 0;
     param_groups := [1 # 100]; model := {[ "fc.weight" := [1%Q] ]};
     files := ∅; stdout := []; log_txt := [] |}.


(** A model of one tensor, and a snapshot with that tensor and one more. *)
Definition own_small : state_dict := {[ "fc.weight" := [1%Q] ]}.

Definition snapshot_extra : state_dict :=
  {[ "fc.weight" := [2%Q]; "extra.bias" := [3%Q] ]}.

(** A model of two tensors, and a snapshot with the first only. *)
Definition own_two : state_dict := {[ "fc.weight" := [1%Q]; "fc.bias" := [0%Q] ]}.

Definition snapshot_partial : state_dict := {[ "fc.weight" := [2%Q] ]}.

(** ** The rest of the script: strings, imports, start-up *)

(** Two methods of a Python 2 [str]. *)
Module Str.

Import Stdlib.Strings.Ascii.

(** [c.lower()] on one character: the 26 capital letters of ASCII go to the
    small ones, every other character stays. *)
Definition lower_ascii (c : Ascii.ascii) : Ascii.ascii :=
  let n := Ascii.nat_of_ascii c in
  if (65 <=? n)%nat && (n <=? 90)%nat then Ascii.ascii_of_nat (n + 32) else c.

(** [s.lower()] *)
Fixpoint lower (s : string) : string :=
  match s with
  | EmptyString => EmptyString
  | String c s' => String (lower_ascii c) (lower s')
  end.

(** [s.split('.')]: the first component and the ones after it (the list
    Python returns is never empty: the split of the empty string is
    [['']]). *)
Fixpoint split_dot (s : string) : string * list string :=
  match s with
  | EmptyString => (EmptyString, [])
  | String c s' =>
      let '(h, t) := split_dot s' in
      if Ascii.eqb c "."%char then (EmptyString, h :: t) else (String c h, t)
  end.

(** Whether a string holds a dot. *)
Fixpoint has_dot (s : string) : bool :=
  match s with
  | EmptyString => false
  | String c s' => Ascii.eqb c "."%char || has_dot s'
  end.

End Str.

(** [str2bool] (lines 16-22), the [type] of the options [--print-log] and
    [--nesterov]. [None] is [raise argparse.ArgumentTypeError]. *)
Definition str2bool (v : string) : option bool :=
  if bool_decide (Str.lower v ∈ ["yes"; "true"; "t"; "y"; "1"]) then Some true
  else if bool_decide (Str.lower v ∈ ["no"; "false"; "f"; "n"; "0"]) then Some false
  else None.

Section ImportClass.

(** [import_class] (lines 25-30) over the interpreter's two operations:
    [import_ name] is [__import__(name)] and [getattr_ mod comp] is
    [getattr(mod, comp)]; each returns an object or raises ([inl]). *)
Context {obj err : Type}.
Variable import_ : string -> err + obj.
Variable getattr_ : obj -> string -> err + obj.

(** The body of [for comp in components[1:]]. *)
Definition import_step (mod_ : err + obj) (comp : string) : err + obj :=
  match mod_ with
  | inr m => getattr_ m comp
  | inl e => inl e
  end.

Definition import_class (name : string) : err + obj :=
  let '(first, others) := Str.split_dot name in
  fold_left import_step others (import_ first).

End ImportClass.

(** How the script ends before a processor is built: with the parsed
    options, or on the failed [assert] of line 305, after the line
    ['WRONG ARG: k'] was printed. *)
Inductive startup (A : Type) : Type :=
| Started (a : A)
| WrongArg (k : string).
Arguments Started {A} a.
Arguments WrongArg {A} k.

Section Config.

(** The options by destination name ([vars(p)]); their values stay
    abstract: they are what the argument parser stores. *)
Context {value : Type}.

(** [parser.parse_args()]: each option holds what the command line gives
    for it, and its default otherwise. [given] are the options the command
    line gives. *)
Definition parse_args (defaults given : gmap string value) : gmap string value :=
  given ∪ defaults.

(** [parser.set_defaults] with the entries of [kwargs] as keywords. *)
Definition set_defaults (kwargs defaults : gmap string value) : gmap string value :=
  kwargs ∪ defaults.

(** Lines 297-308. [config] is [None] when [p.config] is [None], and
    otherwise the dict that [yaml.load] returns from that file. The keys of
    the dict are visited in the order of [elements]. *)
Definition main_arg (defaults given : gmap string value)
    (config : option (gmap string value)) : startup (gmap string value) :=
  let p := parse_args defaults given in
  match config with
  | None => Started (parse_args defaults given)
  | Some default_arg =>
      let key := dom p in
      match list_find (fun k => k ∉ key) (elements (dom default_arg)) with
      | Some (_, k) => WrongArg k
      | None => Started (parse_args (set_defaults default_arg defaults) given)
      end
  end.

End Config.

(** ** What the embedding of the files and of the tensors leaves out *)

(** Every tensor of the snapshot [sd] has the size of the model's tensor of
    the same name. The tensor library copies a tensor with [copy_], which
    raises when the sizes differ; [load_state_dict] above checks names only.
    What is said below of a load that returns is therefore said of snapshots
    that fit. *)
Definition sizes_fit (own sd : state_dict) : Prop :=
  forall (k : string) (v v0 : tensor),
    sd !! k = Some v -> own !! k = Some v0 -> length v = length v0.

(** ['{}/log.txt'.format(work_dir)]: the one file that is not in [files];
    its lines are [log_txt]. *)
Definition log_path (arg : Arg) : string := work_dir arg +:+ "/log.txt".

(** ** Building the processor ([__init__], [save_arg]) *)

(** ['{}/arg.yaml'.format(work_dir)] *)
Definition arg_path (arg : Arg) : string := work_dir arg +:+ "/arg.yaml".

(** [save_arg] (lines 106-112): [yaml] is what [yaml.dump(vars(arg))]
    writes. The file is opened for writing and written like a checkpoint;
    directories are not part of [files], so the creation of [work_dir] has
    no counterpart. *)
Definition save_arg (arg : Arg) (yaml : string) : M unit :=
  modify (fun w => set_files (fs_run (pickle_dump_ops (arg_path arg) yaml) (files w)) w).

(** [Processor.__init__] (lines 34-39) from the point where the two loaders
    and the model have been built: [own] is the fresh state of the model and
    [snapshot] what the file of [--weights] holds. The lines of [load_model]
    are plain [print]s. *)
Definition init (arg : Arg) (yaml : string) (own snapshot : state_dict) : M unit :=
  (* load_model *)
  let '(m, printed, r) := load_model (ignore_weights arg) (weights arg) own snapshot in
  modify (set_model m) ;;
  for_ printed (fun s => print (Plain s)) ;;
  lift r ;;
  (* load_optimizer *)
  groups ← lift (load_optimizer arg);
  modify (set_param_groups groups) ;;
  (* save_arg *)
  save_arg arg yaml.

(** ** More ways to read a run *)

(** The lines printed since [w0], and what [log.txt] has received of
    them: all of them with [--print-log], none without. *)
Definition log_mirror (arg : Arg) (w0 w : World) : Prop :=
  exists new, stdout w = stdout w0 ++ new
    /\ log_txt w = log_txt w0 ++ (if arg_print_log arg then new else []).

(** The clock readings that stamp the lines of a listing, in its order. *)
Definition stamp (l : line) : option Q :=
  match l with
  | Stamped t _ => Some t
  | Plain _ => None
  end.

Definition stamps (ls : list line) : list Q := omap stamp ls.

(** No reading is above a later one. *)
Definition stamps_ordered (ts : list Q) : Prop :=
  forall (i j : nat) (ti tj : Q),
    (i <= j)%nat -> ts !! i = Some ti -> ts !! j = Some tj -> (ti <= tj)%Q.

(** The network after the batches [bs], each trained on at the rates
    [groups]. *)
Definition trained (env : Env) (groups : list Q) (bs : list batch) (m : state_dict)
  : state_dict :=
  fold_left (fun m b => (train_step env m groups b).1) bs m.

(** The options with another [--start-epoch]. *)
Definition with_start_epoch (e : Z) (arg : Arg) : Arg :=
  {| work_dir := work_dir arg; log_interval := log_interval arg;
     save_interval := save_interval arg; eval_interval := eval_interval arg;
     arg_print_log := arg_print_log arg; show_topk := show_topk arg;
     weights := weights arg; ignore_weights := ignore_weights arg;
     phase := phase arg; step := step arg; optimizer := optimizer arg;
     start_epoch := e; num_epoch := num_epoch arg; base_lr := base_lr arg |}.

(** The epoch a recorded call is for. *)
Definition call_epoch (c : call) : Z :=
  match c with
  | CallTrain epoch _ => epoch
  | CallEval epoch _ _ => epoch
  end.

(** ** More concrete runs *)

(** An interpreter whose objects are the dotted paths that lead to them;
    nothing is missing from it. *)
Definition import_path (name : string) : unit + list string := inr [name].

Definition getattr_path (mod_ : list string) (comp : string) : unit + list string :=
  inr (mod_ ++ [comp]).

(** Three options with integer values, a command line that gives one of
    them, and a configuration file that sets two. *)
Definition defaults_small : gmap string Z :=
  {[ "num_epoch" := 80; "batch_size" := 256; "device" := 0 ]}.

Definition given_small : gmap string Z := {[ "batch_size" := 64 ]}.

Definition config_small : gmap string Z :=
  {[ "num_epoch" := 50; "batch_size" := 32 ]}.

(** A training split of two batches, with a network that counts the
    batches it was trained on. *)
Definition loader_two : Loader :=
  {| batches := fun _ => [([0%Q], [0]); ([1%Q], [1])];
     sample_name := ["t1"; "t2"];
     top_k := fun _ _ => 1%Q |}.

Definition env_count : Env :=
  {| data_loader := {[ "train" := loader_two; "test" := loader_test ]};
     train_step := fun m _ _ => (((fun t : tensor => 1%Q :: t) <$> m), 1%Q);
     infer := fun _ _ => ([[1 # 2; 1 # 2]; [1 # 4; 3 # 4]], 1%Q);
     pickled := fun _ => "pickle" |}.

(** A test split without a batch. *)
Definition loader_empty : Loader :=
  {| batches := fun _ => []; sample_name := []; top_k := fun _ _ => 0%Q |}.

Definition env_empty : Env :=
  {| data_loader := {[ "train" := loader_empty; "test" := loader_empty ]};
     train_step := fun m _ _ => (m, 1%Q);
     infer := fun _ _ => ([], 0%Q);
     pickled := fun _ => "pickle" |}.

(** The defaults with [--log-interval 0], and with a short run of three
    epochs that saves every second one. *)
Definition arg_no_log : Arg :=
  {| work_dir := "work"; log_interval := 0; save_interval := 10;
     eval_interval := 5; arg_print_log := true; show_topk := [1; 5];
     weights := None; ignore_weights := []; phase := "train";
     step := [20; 40; 60]; optimizer := "SGD"; start_epoch := 0;
     num_epoch := 80; base_lr := 1 # 100 |}.

Definition arg_short : Arg :=
  {| work_dir := "work"; log_interval := 100; save_interval := 2;
     eval_interval := 2; arg_print_log := true; show_topk := [1];
     weights := None; ignore_weights := []; phase := "train";
     step := [20; 40; 60]; optimizer := "SGD"; start_epoch := 0;
     num_epoch := 3; base_lr := 1 # 100 |}.
(** * Properties *)

(** ** Strings *)

Lemma string_app_nil_r (s : string) : s +:+ "" = s.
Proof.
  induction s as [|c s IH]; [reflexivity|].
  change (String c (s +:+ "") = String c s). by rewrite IH.
Qed.

Lemma string_app_assoc (a b c : string) : (a +:+ b) +:+ c = a +:+ (b +:+ c).
Proof.
  induction a as [|x a IH]; [reflexivity|].
  change (String x ((a +:+ b) +:+ c) = String x (a +:+ (b +:+ c))). by rewrite IH.
Qed.

Lemma string_length_app (a b : string) :
  String.length (a +:+ b) = (String.length a + String.length b)%nat.
Proof.
  induction a as [|c a IH]; [reflexivity|].
  change (S (String.length (a +:+ b)) = S (String.length a + String.length b)).
  by rewrite IH.
Qed.

(** Two equal strings with tails of the same length have equal tails. *)
Lemma string_app_inj_tail (a b x y : string) :
  String.length x = String.length y → a +:+ x = b +:+ y → x = y.
Proof.
  revert b. induction a as [|c a IH]; intros [|d b] Hlen H.
  - exact H.
  - exfalso. change (x = String d (b +:+ y)) in H. rewrite H in Hlen.
    cbn in Hlen. rewrite string_length_app in Hlen. lia.
  - exfalso. change (String c (a +:+ x) = y) in H. rewrite <- H in Hlen.
    cbn in Hlen. rewrite string_length_app in Hlen. lia.
  - change (String c (a +:+ x) = String d (b +:+ y)) in H.
    injection H as _ H. by apply (IH b).
Qed.

Lemma string_app_inj_r (a b : string) (c : Ascii.ascii) :
  a +:+ String c "" = b +:+ String c "" → a = b.
Proof.
  revert b. induction a as [|x a IH]; intros [|y b] H.
  - reflexivity.
  - change (String c "" = String y (b +:+ String c "")) in H.
    injection H as _ H. destruct b; discriminate.
  - change (String x (a +:+ String c "") = String c "") in H.
    injection H as _ H. destruct a; discriminate.
  - change (String x (a +:+ String c "") = String y (b +:+ String c "")) in H.
    injection H as -> H. f_equal. by apply IH.
Qed.

(** ** Python built-ins *)

Lemma elem_of_range (lo hi e : Z) : e ∈ Py.range lo hi ↔ lo ≤ e < hi.
Proof.
  unfold Py.range. rewrite list_elem_of_In, in_map_iff. split.
  - intros (i & <- & Hi). apply in_seq in Hi. lia.
  - intros H. exists (Z.to_nat (e - lo)). split; [lia|]. apply in_seq. lia.
Qed.

Lemma zip_zip_with {A B} (xs : list A) (ys : list B) :
  Py.zip xs ys = zip_with pair xs ys.
Proof.
  revert ys. induction xs as [|x xs IH]; intros [|y ys]; cbn; try done.
  by rewrite IH.
Qed.

Lemma length_zip {A B} (xs : list A) (ys : list B) :
  length (Py.zip xs ys) = min (length xs) (length ys).
Proof. rewrite zip_zip_with. apply length_zip_with. Qed.

Lemma lookup_zip {A B} (xs : list A) (ys : list B) (i : nat) (x : A) (y : B) :
  Py.zip xs ys !! i = Some (x, y) ↔ xs !! i = Some x ∧ ys !! i = Some y.
Proof.
  rewrite zip_zip_with, lookup_zip_with_Some. split.
  - intros (x' & y' & [= -> ->] & ? & ?). done.
  - intros [? ?]. eauto.
Qed.

Lemma fst_zip_sublist {A B} (xs : list A) (ys : list B) :
  (Py.zip xs ys).*1 = take (length ys) xs.
Proof.
  revert ys. induction xs as [|x xs IH]; intros [|y ys]; cbn; try done.
  by rewrite IH.
Qed.

Lemma NoDup_fst_zip {A B} (xs : list A) (ys : list B) :
  NoDup xs → NoDup (Py.zip xs ys).*1.
Proof.
  intros H. rewrite fst_zip_sublist. eapply sublist_NoDup; [done | apply sublist_take].
Qed.

Lemma dict_snoc {V} (pairs : list (string * V)) (k : string) (v : V) :
  Py.dict (pairs ++ [(k, v)]) = <[k := v]> (Py.dict pairs).
Proof. unfold Py.dict. by rewrite fold_left_app. Qed.

Lemma dict_lookup_None {V} (pairs : list (string * V)) (k : string) :
  k ∉ pairs.*1 → Py.dict pairs !! k = None.
Proof.
  induction pairs as [|[k' v'] pairs IH] using rev_ind; intros Hk; [done|].
  rewrite dict_snoc. rewrite fmap_app, elem_of_app in Hk. cbn in Hk.
  rewrite lookup_insert_ne; [apply IH; tauto|].
  intros ->. apply Hk. right. by left.
Qed.

Lemma dict_lookup {V} (pairs : list (string * V)) (k : string) (v : V) :
  NoDup pairs.*1 → Py.dict pairs !! k = Some v ↔ (k, v) ∈ pairs.
Proof.
  induction pairs as [|[k' v'] pairs IH] using rev_ind; intros Hnd.
  - cbn. split; [done | by intros ?%elem_of_nil].
  - rewrite fmap_app in Hnd. apply NoDup_app in Hnd as (Hnd & Hdis & _).
    rewrite dict_snoc, elem_of_app, list_elem_of_singleton.
    destruct (decide (k = k')) as [->|Hne].
    + rewrite lookup_insert_eq. split.
      * intros [= ->]. by right.
      * intros [Hin|[= ->]]; [|done]. exfalso.
        apply (Hdis k'); [|by left]. apply list_elem_of_fmap. by exists (k', v).
    + rewrite lookup_insert_ne by done. rewrite (IH Hnd). split; [auto|].
      intros [?|[= ? ?]]; done.
Qed.

Lemma dict_size {V} (pairs : list (string * V)) :
  NoDup pairs.*1 → size (Py.dict pairs) = length pairs.
Proof.
  induction pairs as [|[k' v'] pairs IH] using rev_ind; intros Hnd; [done|].
  rewrite fmap_app in Hnd. apply NoDup_app in Hnd as (Hnd & Hdis & _).
  rewrite dict_snoc, length_app, map_size_insert_None, (IH Hnd); [cbn; lia|].
  apply dict_lookup_None. intros Hin. apply (Hdis k' Hin). by left.
Qed.



(** ** Runs *)

Lemma for_app {S A} (xs ys : list A) (body : A → Exec S unit) s :
  for_ (xs ++ ys) body s = (for_ xs body ;; for_ ys body) s.
Proof.
  revert s. induction xs as [|x xs IH]; intros s; [reflexivity|].
  cbn [app for_]. unfold mbind, Exec_bind in *.
  destruct (body x s) as [[[]|e] s1]; [apply IH | reflexivity].
Qed.


(** The rules of [triple], one for each way a statement is built. *)
Section Triples.
Context {S : Type}.
Implicit Types (P : S → Prop) (E : exn → S → Prop).

Lemma triple_ret {A} P (a : A) (Q : A → S → Prop) E :
  (∀ s, P s → Q a s) → triple P (mret a) Q E.
Proof. intros H s Hs. by apply H. Qed.

Lemma triple_bind {A B} P (m : Exec S A) (k : A → Exec S B)
    (Q : A → S → Prop) (R : B → S → Prop) E :
  triple P m Q E → (∀ a, triple (Q a) (k a) R E) → triple P (m ≫= k) R E.
Proof.
  intros Hm Hk s Hs. specialize (Hm s Hs). unfold mbind, Exec_bind.
  destruct (m s) as [[a|e] s']; [by apply Hk | done].
Qed.

Lemma triple_weaken {A} P P' (m : Exec S A) (Q Q' : A → S → Prop) E E' :
  triple P' m Q' E' → (∀ s, P s → P' s) → (∀ a s, Q' a s → Q a s) →
  (∀ e s, E' e s → E e s) → triple P m Q E.
Proof.
  intros Hm HP HQ HE s Hs. specialize (Hm s (HP s Hs)).
  destruct (m s) as [[a|e] s']; auto.
Qed.

Lemma triple_get P (Q : S → S → Prop) E :
  (∀ s, P s → Q s s) → triple P get Q E.
Proof. intros H s Hs. by apply H. Qed.

Lemma triple_modify P (f : S → S) (Q : unit → S → Prop) E :
  (∀ s, P s → Q () (f s)) → triple P (modify f) Q E.
Proof. intros H s Hs. by apply H. Qed.

Lemma triple_lift {A} P (r : result A) (Q : A → S → Prop) E :
  (∀ s, P s → match r with Ok a => Q a s | Raise e => E e s end) →
  triple P (lift r) Q E.
Proof. intros H s Hs. specialize (H s Hs). unfold lift. by destruct r. Qed.

Lemma triple_for {A} (I : S → Prop) (xs : list A) (body : A → Exec S unit) E :
  (∀ x, x ∈ xs → triple I (body x) (λ _, I) E) →
  triple I (for_ xs body) (λ _, I) E.
Proof.
  induction xs as [|x xs IH]; intros Hb.
  - by apply triple_ret.
  - cbn [for_]. eapply triple_bind; [apply Hb; left|].
    intros ?. apply IH. intros y Hy. apply Hb. by right.
Qed.

Lemma triple_pure {A} (φ : Prop) P (m : Exec S A) (Q : A → S → Prop) E :
  (φ → triple P m Q E) → triple (λ s, φ ∧ P s) m Q E.
Proof. intros H s [Hφ Hs]. by apply H. Qed.

(** A statement that starts by returning, or by lifting, a value. *)
Lemma triple_bind_ret {A B} P (a : A) (k : A → Exec S B) (Q : B → S → Prop) E :
  triple P (k a) Q E → triple P (mret a ≫= k) Q E.
Proof. intros H. exact H. Qed.

(** Reading a triple at a run. *)
Lemma triple_ok {A} P (m : Exec S A) (Q : A → S → Prop) E s a s' :
  triple P m Q E → P s → m s = (Ok a, s') → Q a s'.
Proof. intros H Hs Hm. specialize (H s Hs). by rewrite Hm in H. Qed.

(** A statement that cannot raise returns. *)
Lemma triple_total {A} P (m : Exec S A) (Q : A → S → Prop) s :
  triple P m Q (λ _ _, False) → P s → ∃ a s', m s = (Ok a, s') ∧ Q a s'.
Proof.
  intros H Hs. specialize (H s Hs). destruct (m s) as [[a|e] s']; [eauto | done].
Qed.

End Triples.

(** One statement that keeps an invariant [I], then the rest. *)
Ltac keep I := eapply (triple_bind _ _ _ (fun _ => I)).
(** ** Learning-rate schedule *)

Lemma np_sum_boundaries (epoch : Z) (step : list Z) :
  Np.sum (map (fun s => epoch >=? s) step) = boundaries_reached epoch step.
Proof.
  unfold boundaries_reached.
  induction step as [|s step IH]; [reflexivity|].
  cbn [map Np.sum fold_right]. fold (Np.sum (map (fun s => epoch >=? s) step)).
  rewrite IH, filter_cons. destruct (decide (s ≤ epoch)) as [H|H].
  - replace (epoch >=? s) with true by (symmetry; apply Z.geb_le; lia).
    cbn [length Z.b2z]. lia.
  - replace (epoch >=? s) with false by (symmetry; rewrite Z.geb_leb; apply Z.leb_gt; lia).
    cbn [Z.b2z]. lia.
Qed.

Lemma boundaries_reached_nonneg epoch step : 0 ≤ boundaries_reached epoch step.
Proof. unfold boundaries_reached. lia. Qed.

Lemma boundaries_reached_mono (e1 e2 : Z) (step : list Z) :
  e1 ≤ e2 → boundaries_reached e1 step ≤ boundaries_reached e2 step.
Proof.
  intros He. unfold boundaries_reached.
  induction step as [|s step IH]; [reflexivity|].
  rewrite !filter_cons.
  destruct (decide (s ≤ e1)), (decide (s ≤ e2)); cbn [length]; lia.
Qed.

Lemma tenth_power_le_1 (d : Z) : 0 ≤ d → ((1 # 10) ^ d <= 1)%Q.
Proof.
  intros Hd. pattern d. apply natlike_ind; [discriminate | | exact Hd].
  intros x Hx IH. unfold Z.succ. rewrite Qpower_plus by discriminate.
  assert (H0 : (0 <= (1 # 10) ^ x)%Q) by (apply Qpower_0_le; discriminate).
  change ((1 # 10) ^ 1)%Q with (1 # 10)%Q. nra.
Qed.

Lemma tenth_power_antitone (a b : Z) :
  0 ≤ a → a ≤ b → ((1 # 10) ^ b <= (1 # 10) ^ a)%Q.
Proof.
  intros Ha Hab. replace b with (a + (b - a)) by lia.
  rewrite Qpower_plus by discriminate.
  assert (H0 : (0 <= (1 # 10) ^ a)%Q) by (apply Qpower_0_le; discriminate).
  assert (H1 : ((1 # 10) ^ (b - a) <= 1)%Q) by (apply tenth_power_le_1; lia).
  assert (H2 : (0 <= (1 # 10) ^ (b - a))%Q) by (apply Qpower_0_le; discriminate).
  nra.
Qed.

Lemma learning_rate_boundaries (lr0 : Q) (epoch : Z) (step : list Z) :
  learning_rate lr0 epoch step = (lr0 * (1 # 10) ^ boundaries_reached epoch step)%Q.
Proof. unfold learning_rate. by rewrite np_sum_boundaries. Qed.

Lemma learning_rate_antitone (lr0 : Q) (e1 e2 : Z) (step : list Z) :
  (0 <= lr0)%Q → e1 ≤ e2 →
  (learning_rate lr0 e2 step <= learning_rate lr0 e1 step)%Q.
Proof.
  intros H0 He. rewrite !learning_rate_boundaries.
  pose proof (tenth_power_antitone _ _ (boundaries_reached_nonneg e1 step)
                (boundaries_reached_mono e1 e2 step He)) as Hp.
  nra.
Qed.

(** For a negative [base_lr] the order is the opposite one. *)
Lemma learning_rate_monotone_nonpos (lr0 : Q) (e1 e2 : Z) (step : list Z) :
  (lr0 <= 0)%Q → e1 ≤ e2 →
  (learning_rate lr0 e1 step <= learning_rate lr0 e2 step)%Q.
Proof.
  intros H0 He. rewrite !learning_rate_boundaries.
  pose proof (tenth_power_antitone _ _ (boundaries_reached_nonneg e1 step)
                (boundaries_reached_mono e1 e2 step He)) as Hp.
  nra.
Qed.

Lemma load_optimizer_ok (arg : Arg) (groups : list Q) :
  load_optimizer arg = Ok groups →
  (optimizer arg = "SGD" ∨ optimizer arg = "Adam") ∧ groups = [base_lr arg].
Proof.
  unfold load_optimizer. repeat case_bool_decide; intros Heq; inversion Heq; auto.
Qed.

(** C1. In a processor whose optimizer was built, [adjust_learning_rate]
    returns, for every epoch [e], [base_lr * 0.1^c] with [c] the number of
    step boundaries at or below [e], and writes that rate into every parameter
    group; the rate is the function [learning_rate] of [base_lr], [e] and the
    steps alone; and for a rate [base_lr >= 0] it does not increase with
    [e]. *)
Theorem adjust_learning_rate_step_decay (arg : Arg) (groups : list Q) :
  load_optimizer arg = Ok groups →
  (∀ (param_groups : list Q) (e : Z),
     ∃ lr param_groups',
       adjust_learning_rate arg param_groups e = Ok (lr, param_groups')
       ∧ lr = (base_lr arg * (1 # 10) ^ boundaries_reached e (step arg))%Q
       ∧ lr = learning_rate (base_lr arg) e (step arg)
       ∧ Forall (eq lr) param_groups'
       ∧ length param_groups' = length param_groups)
  ∧ ((0 <= base_lr arg)%Q →
     ∀ e1 e2 : Z, e1 ≤ e2 →
       (learning_rate (base_lr arg) e2 (step arg)
        <= learning_rate (base_lr arg) e1 (step arg))%Q).
Proof.
  intros Hopt. apply load_optimizer_ok in Hopt as [Hkind _]. split.
  - intros gs e. unfold adjust_learning_rate.
    assert (Hb : bool_decide (optimizer arg = "SGD")
                 || bool_decide (optimizer arg = "Adam") = true).
    { destruct Hkind as [H|H]; rewrite H; reflexivity. }
    rewrite Hb. eexists _, _. split; [reflexivity|].
    split; [apply learning_rate_boundaries|]. split; [reflexivity|].
    split; [|by rewrite length_map].
    apply Forall_forall. intros x Hx. apply list_elem_of_In, in_map_iff in Hx.
    by destruct Hx as (? & -> & _).
  - intros H0 e1 e2 He. by apply learning_rate_antitone.
Qed.

(** With the default steps 20, 40, 60 and rate 0.01, epoch 45 trains at
    0.01 * 0.1^2, and epoch 60 at no more than epoch 45. *)
Lemma adjust_learning_rate_step_decay_witness :
  load_optimizer arg_default = Ok [(1 # 100)%Q]
  ∧ (∃ lr param_groups',
       adjust_learning_rate arg_default [(1 # 100)%Q] 45 = Ok (lr, param_groups')
       ∧ lr = ((1 # 100) * (1 # 10) ^ 2)%Q)
  ∧ (learning_rate (base_lr arg_default) 60 (step arg_default)
     <= learning_rate (base_lr arg_default) 45 (step arg_default))%Q.
Proof.
  split; [reflexivity|].
  destruct (adjust_learning_rate_step_decay arg_default [(1 # 100)%Q] eq_refl)
    as [Hlr Hmono].
  split.
  - destruct (Hlr [(1 # 100)%Q] 45) as (lr & gs & Hrun & Heq & _).
    exists lr, gs. split; [exact Hrun | exact Heq].
  - apply (Hmono ltac:(discriminate) 45 60). lia.
Defined.
(** ** Checkpoint reconciliation *)

(** The printed lines tell the names apart. *)

Lemma removed_line_inj (a b : string) : removed_line a = removed_line b → a = b.
Proof.
  unfold removed_line. intros H. apply (inj (String.append _)) in H.
  by apply string_app_inj_r in H.
Qed.

Lemma kept_line_inj (a b : string) : kept_line a = kept_line b → a = b.
Proof.
  unfold kept_line. intros H. apply (inj (String.append _)) in H.
  by apply string_app_inj_r in H.
Qed.

Lemma removed_kept_line (a b : string) : removed_line a ≠ kept_line b.
Proof. unfold removed_line, kept_line. intros H. discriminate H. Qed.

Lemma indent_removed (a b : string) : "  " +:+ a ≠ removed_line b.
Proof. intros H. discriminate H. Qed.

Lemma indent_kept (a b : string) : "  " +:+ a ≠ kept_line b.
Proof. intros H. discriminate H. Qed.

Lemma indent_load (a p : string) : "  " +:+ a ≠ "Load weights from " +:+ p +:+ ".".
Proof. intros H. discriminate H. Qed.

Lemma indent_header (a : string) : "  " +:+ a ≠ "Can not find these weights:".
Proof. intros H. discriminate H. Qed.

(** The loop over [ignore_weights]. *)

Lemma remove_step_eq (ws : state_dict) (out : list string) (w : string) :
  remove_step (ws, out) w
  = (delete w ws,
     out ++ [match ws !! w with Some _ => removed_line w | None => kept_line w end]).
Proof. reflexivity. Qed.

Lemma remove_fold_lookup (ignore : list string) (ws : state_dict)
    (out : list string) (k : string) :
  (fold_left remove_step ignore (ws, out)).1 !! k
  = if decide (k ∈ ignore) then None else ws !! k.
Proof.
  revert ws out. induction ignore as [|w ignore IH]; intros ws out.
  - cbn. destruct (decide (k ∈ [])) as [H|_]; [by apply elem_of_nil in H | done].
  - cbn [fold_left]. rewrite remove_step_eq, IH.
    destruct (decide (k ∈ ignore)) as [Hin|Hin].
    + rewrite decide_True; [done | by right].
    + destruct (decide (k = w)) as [->|Hne].
      * rewrite decide_True by left. apply lookup_delete_eq.
      * rewrite decide_False; [by apply lookup_delete_ne|].
        intros [?|?]%elem_of_cons; done.
Qed.

Lemma remove_fold_length (ignore : list string) (ws : state_dict) (out : list string) :
  length (fold_left remove_step ignore (ws, out)).2 = (length out + length ignore)%nat.
Proof.
  revert ws out. induction ignore as [|w ignore IH]; intros ws out; cbn [fold_left].
  - cbn. lia.
  - rewrite remove_step_eq, IH, length_app. cbn. lia.
Qed.

Lemma remove_fold_prefix (ignore : list string) (ws : state_dict) (out : list string) :
  ∃ new, (fold_left remove_step ignore (ws, out)).2 = out ++ new
    ∧ ∀ l, l ∈ new → ∃ w, w ∈ ignore ∧ (l = removed_line w ∨ l = kept_line w).
Proof.
  revert ws out. induction ignore as [|w ignore IH]; intros ws out; cbn [fold_left].
  - exists []. split; [by rewrite app_nil_r|]. intros l Hl. by apply elem_of_nil in Hl.
  - rewrite remove_step_eq.
    destruct (IH (delete w ws)
                (out ++ [match ws !! w with Some _ => removed_line w | None => kept_line w end]))
      as (new & -> & Hnew).
    eexists (_ :: new). split; [by rewrite <- app_assoc|].
    intros l [->|Hl]%elem_of_cons.
    + exists w. split; [left|]. destruct (ws !! w); auto.
    + destruct (Hnew l Hl) as (w' & ? & ?). exists w'. split; [by right | done].
Qed.

Lemma remove_fold_removed (ignore : list string) (ws : state_dict)
    (out : list string) (k : string) :
  removed_line k ∈ (fold_left remove_step ignore (ws, out)).2
  ↔ removed_line k ∈ out ∨ (k ∈ ignore ∧ is_Some (ws !! k)).
Proof.
  revert ws out. induction ignore as [|w ignore IH]; intros ws out; cbn [fold_left].
  - cbn. split; [auto|]. intros [?|[H _]]; [done | by apply elem_of_nil in H].
  - rewrite remove_step_eq, IH, elem_of_app, list_elem_of_singleton.
    split.
    + intros [[H|H]|[Hin Hs]].
      * by left.
      * right. destruct (ws !! w) eqn:Hw.
        -- apply removed_line_inj in H as ->. split; [left | by rewrite Hw].
        -- by apply removed_kept_line in H.
      * right. split; [by right|].
        destruct (decide (k = w)) as [->|Hne];
          [by rewrite lookup_delete_eq in Hs; destruct Hs
          | by rewrite lookup_delete_ne in Hs].
    + intros [H|[Hin Hs]]; [auto|].
      destruct (decide (k = w)) as [->|Hne].
      * left. right. destruct Hs as [v ->]. reflexivity.
      * right. apply elem_of_cons in Hin as [?|Hin]; [done|].
        split; [done|]. by rewrite lookup_delete_ne.
Qed.

Lemma remove_fold_kept (ignore : list string) (ws : state_dict)
    (out : list string) (k : string) :
  k ∈ ignore → ws !! k = None →
  kept_line k ∈ (fold_left remove_step ignore (ws, out)).2.
Proof.
  revert ws out. induction ignore as [|w ignore IH]; intros ws out Hin Hk; cbn [fold_left].
  - by apply elem_of_nil in Hin.
  - rewrite remove_step_eq.
    destruct (decide (k = w)) as [->|Hne].
    + destruct (remove_fold_prefix ignore (delete w ws)
                  (out ++ [match ws !! w with Some _ => removed_line w | None => kept_line w end]))
        as (new & -> & _).
      rewrite Hk. rewrite !elem_of_app, list_elem_of_singleton. auto.
    + apply IH.
      * apply elem_of_cons in Hin as [?|?]; done.
      * by rewrite lookup_delete_ne.
Qed.
Lemma dom_copy_matching (own sd : state_dict) :
  dom (copy_matching own sd) = dom own.
Proof.
  unfold copy_matching. apply set_eq. intros k.
  rewrite dom_union, elem_of_union, !elem_of_dom. split; [|auto].
  intros [[v Hv]|H]; [|done].
  apply map_lookup_filter_Some in Hv as [_ Hk]. by apply elem_of_dom in Hk.
Qed.

Lemma lookup_copy_matching (own sd : state_dict) (k : string) :
  copy_matching own sd !! k
  = match own !! k, sd !! k with
    | Some _, Some v => Some v
    | o, _ => o
    end.
Proof.
  unfold copy_matching. rewrite lookup_union.
  destruct (own !! k) as [u|] eqn:Ho, (sd !! k) as [v|] eqn:Hs.
  - rewrite (map_lookup_filter_Some_2 _ _ k v); [done | done |].
    cbn. apply elem_of_dom. by rewrite Ho.
  - rewrite (proj2 (map_lookup_filter_None _ _ k)); [done | left; done].
  - rewrite (proj2 (map_lookup_filter_None _ _ k)); [done|].
    right. intros x _ Hk. cbn in Hk. apply elem_of_dom in Hk. rewrite Ho in Hk.
    by destruct Hk.
  - rewrite (proj2 (map_lookup_filter_None _ _ k)); [done | left; done].
Qed.

Lemma lookup_update {V} (d e : gmap string V) (k : string) :
  Py.update d e !! k = match e !! k with Some v => Some v | None => d !! k end.
Proof. unfold Py.update. rewrite lookup_union. destruct (e !! k), (d !! k); done. Qed.

Lemma elements_nil_iff (X : gset string) : elements X = [] ↔ X = ∅.
Proof. rewrite elements_empty_iff. by unfold_leibniz. Qed.

Lemma load_state_dict_ok (own sd : state_dict) :
  dom sd = dom own → load_state_dict own sd = (sd, Ok ()).
Proof.
  intros Hd. unfold load_state_dict. rewrite Hd.
  assert (He : dom own ∖ dom own = (∅ : gset string)) by apply difference_diag_L.
  rewrite He, elements_empty. f_equal. apply map_eq. intros k.
  rewrite lookup_copy_matching.
  destruct (own !! k) eqn:Ho, (sd !! k) eqn:Hs; try done.
  - apply not_elem_of_dom in Hs. rewrite Hd in Hs. apply not_elem_of_dom in Hs. congruence.
  - apply not_elem_of_dom in Ho. rewrite <- Hd in Ho. apply not_elem_of_dom in Ho. congruence.
Qed.

Lemma load_state_dict_raise (own sd : state_dict) :
  dom sd ≠ dom own →
  load_state_dict own sd
  = (copy_matching own sd,
     Raise (KeyMismatch (elements (dom sd ∖ dom own)) (elements (dom own ∖ dom sd)))).
Proof.
  intros Hd. unfold load_state_dict.
  destruct (elements (dom sd ∖ dom own)) eqn:E1; [|done].
  destruct (elements (dom own ∖ dom sd)) eqn:E2; [|done].
  apply elements_nil_iff in E1. apply elements_nil_iff in E2.
  exfalso. apply Hd. apply set_eq. intros k. split; intros Hk.
  - destruct (decide (k ∈ dom own)) as [|Hn]; [done|].
    assert (k ∈ dom sd ∖ dom own) as Hin by set_solver. rewrite E1 in Hin. set_solver.
  - destruct (decide (k ∈ dom sd)) as [|Hn]; [done|].
    assert (k ∈ dom own ∖ dom sd) as Hin by set_solver. rewrite E2 in Hin. set_solver.
Qed.

(** The mapping handed to the second [load_state_dict]. *)
Lemma lookup_merged (own ws : state_dict) (k : string) :
  Py.update (copy_matching own ws) ws !! k
  = match ws !! k with Some v => Some v | None => own !! k end.
Proof.
  rewrite lookup_update, lookup_copy_matching.
  destruct (ws !! k), (own !! k); done.
Qed.

Lemma reconcile_raise (own ws : state_dict) :
  dom ws ≠ dom own →
  reconcile own ws
  = let own' := copy_matching own ws in
    let merged := Py.update own' ws in
    ((load_state_dict own' merged).1,
     "Can not find these weights:"
       :: map (String.append "  ") (elements (dom own ∖ dom ws)),
     (load_state_dict own' merged).2).
Proof.
  intros Hd. unfold reconcile. rewrite (load_state_dict_raise _ _ Hd).
  cbn zeta. rewrite dom_copy_matching.
  by destruct (load_state_dict _ _).
Qed.

Lemma reconcile_missing_only (own ws : state_dict) :
  dom ws ⊆ dom own → dom ws ≠ dom own →
  reconcile own ws
  = (ws ∪ own,
     "Can not find these weights:"
       :: map (String.append "  ") (elements (dom own ∖ dom ws)),
     Ok ()).
Proof.
  intros Hsub Hd. rewrite (reconcile_raise _ _ Hd). cbn zeta.
  assert (Hm : Py.update (copy_matching own ws) ws = ws ∪ own).
  { apply map_eq. intros k. rewrite lookup_merged, lookup_union.
    destruct (ws !! k), (own !! k); done. }
  rewrite Hm, load_state_dict_ok; [done|].
  rewrite dom_copy_matching, dom_union_L. by apply subseteq_union_1_L.
Qed.

Lemma reconcile_same_keys (own ws : state_dict) :
  dom ws = dom own → reconcile own ws = (ws, [], Ok ()).
Proof. intros Hd. unfold reconcile. by rewrite load_state_dict_ok. Qed.

Lemma reconcile_unexpected (own ws : state_dict) (x : string) :
  x ∈ dom ws → x ∉ dom own →
  ∃ own' unexpected missing,
    reconcile own ws
    = (own',
       "Can not find these weights:"
         :: map (String.append "  ") (elements (dom own ∖ dom ws)),
       Raise (KeyMismatch unexpected missing))
    ∧ x ∈ unexpected.
Proof.
  intros Hx Hx'.
  assert (Hd : dom ws ≠ dom own) by (intros Heq; apply Hx'; by rewrite <- Heq).
  rewrite (reconcile_raise _ _ Hd). cbn zeta.
  assert (Hd' : dom (Py.update (copy_matching own ws) ws) ≠ dom (copy_matching own ws)).
  { rewrite dom_copy_matching. unfold Py.update. rewrite dom_union_L.
    intros Heq. apply Hx'. rewrite <- Heq. apply elem_of_union. by left. }
  rewrite (load_state_dict_raise _ _ Hd'). cbn [fst snd].
  eexists _, _, _. split; [reflexivity|].
  apply elem_of_elements. rewrite dom_copy_matching. unfold Py.update.
  rewrite dom_union_L. apply elem_of_difference. split; [|done].
  apply elem_of_union. by left.
Qed.

(** Counting printed lines. *)

Lemma count_occ_indent_removed (ignore : list string) (ws : state_dict) (k : string) :
  count_occ String.string_dec (remove_ignored ignore ws).2 ("  " +:+ k) = 0%nat.
Proof.
  apply count_occ_not_In. rewrite <- list_elem_of_In. intros Hin.
  destruct (remove_fold_prefix ignore ws []) as (new & Hnew & Hlines).
  unfold remove_ignored in Hin. rewrite Hnew in Hin. cbn in Hin.
  destruct (Hlines _ Hin) as (w & _ & [H|H]).
  - by apply indent_removed in H.
  - by apply indent_kept in H.
Qed.

Lemma count_occ_indent_missing (X : gset string) (k : string) :
  k ∈ X →
  count_occ String.string_dec (map (String.append "  ") (elements X)) ("  " +:+ k) = 1%nat.
Proof.
  intros Hk.
  assert (Hnd : List.NoDup (map (String.append "  ") (elements X))).
  { apply NoDup_ListNoDup, (NoDup_fmap_2 (String.append "  ")), NoDup_elements. }
  pose proof (proj1 (NoDup_count_occ String.string_dec _) Hnd ("  " +:+ k)) as Hle.
  assert (Hin : In ("  " +:+ k) (map (String.append "  ") (elements X))).
  { apply in_map, list_elem_of_In, elem_of_elements, Hk. }
  apply (count_occ_In String.string_dec) in Hin. lia.
Qed.

(** The model and the lines [load_model] leaves, whether it returns or
    raises. *)

Lemma load_state_dict_model (own sd : state_dict) :
  (load_state_dict own sd).1 = copy_matching own sd.
Proof. reflexivity. Qed.

Lemma reconcile_lookup (own ws : state_dict) (k : string) :
  (reconcile own ws).1.1 !! k
  = match own !! k with
    | Some v0 => Some (default v0 (ws !! k))
    | None => None
    end.
Proof.
  destruct (decide (dom ws = dom own)) as [Hd|Hd].
  - rewrite (reconcile_same_keys _ _ Hd). cbn [fst].
    destruct (own !! k) as [v0|] eqn:Ho.
    + assert (Hk : k ∈ dom ws) by (rewrite Hd; apply elem_of_dom; by rewrite Ho).
      apply elem_of_dom in Hk as [v Hv]. by rewrite Hv.
    + apply not_elem_of_dom. rewrite Hd. by apply not_elem_of_dom.
  - rewrite (reconcile_raise _ _ Hd). cbn zeta. cbn [fst].
    rewrite load_state_dict_model, lookup_copy_matching, lookup_merged,
      lookup_copy_matching.
    by destruct (own !! k), (ws !! k).
Qed.

Lemma load_model_lookup (ignore : list string) (p : string)
    (own snapshot : state_dict) (k : string) :
  p ≠ "" →
  (load_model ignore (Some p) own snapshot).1.1 !! k
  = match own !! k with
    | Some v0 => Some (if decide (k ∈ ignore) then v0 else default v0 (snapshot !! k))
    | None => None
    end.
Proof.
  intros Hp. unfold load_model. rewrite bool_decide_eq_false_2 by done.
  pose proof (remove_fold_lookup ignore snapshot [] k) as Hws.
  fold (remove_ignored ignore snapshot) in Hws.
  destruct (remove_ignored ignore snapshot) as [ws removed]. cbn [fst] in Hws.
  pose proof (reconcile_lookup own ws k) as Hrec.
  destruct (reconcile own ws) as [[own' out] r]. cbn [fst] in *.
  rewrite Hrec, Hws. destruct (own !! k); [|done]. by case_decide.
Qed.

Lemma load_model_warns_once (ignore : list string) (p : string)
    (own snapshot : state_dict) (K : string) :
  p ≠ "" →
  is_Some (own !! K) →
  snapshot !! K = None →
  count_occ String.string_dec (load_model ignore (Some p) own snapshot).1.2 ("  " +:+ K)
  = 1%nat.
Proof.
  intros Hp HK Hmiss. unfold load_model. rewrite bool_decide_eq_false_2 by done.
  pose proof (remove_fold_lookup ignore snapshot []) as Hws.
  pose proof (count_occ_indent_removed ignore snapshot K) as Hcnt.
  fold (remove_ignored ignore snapshot) in Hws.
  destruct (remove_ignored ignore snapshot) as [ws removed]. cbn [fst snd] in *.
  assert (HwsK : ws !! K = None) by (rewrite Hws; by case_decide).
  assert (Hd : dom ws ≠ dom own).
  { intros Heq. apply elem_of_dom in HK. rewrite <- Heq in HK.
    apply elem_of_dom in HK. rewrite HwsK in HK. by destruct HK. }
  rewrite (reconcile_raise own ws Hd). cbn zeta. cbn [fst snd].
  rewrite count_occ_cons_neq by (intros H; symmetry in H; by apply indent_load in H).
  rewrite count_occ_app, Hcnt.
  rewrite count_occ_cons_neq by (intros H; symmetry in H; by apply indent_header in H).
  apply count_occ_indent_missing. apply elem_of_difference. split.
  - by apply elem_of_dom.
  - by apply not_elem_of_dom.
Qed.

Lemma load_model_returns (ignore : list string) (p : string)
    (own snapshot : state_dict) :
  p ≠ "" →
  (∀ k, is_Some (snapshot !! k) → k ∈ ignore ∨ is_Some (own !! k)) →
  (load_model ignore (Some p) own snapshot).2 = Ok ().
Proof.
  intros Hp Hknown. unfold load_model. rewrite bool_decide_eq_false_2 by done.
  pose proof (remove_fold_lookup ignore snapshot []) as Hws.
  fold (remove_ignored ignore snapshot) in Hws.
  destruct (remove_ignored ignore snapshot) as [ws removed]. cbn [fst snd] in *.
  assert (Hsub : dom ws ⊆ dom own).
  { intros k Hk. apply elem_of_dom in Hk. rewrite Hws in Hk.
    destruct (decide (k ∈ ignore)) as [|Hni]; [by destruct Hk|].
    apply elem_of_dom. by destruct (Hknown k Hk). }
  destruct (decide (dom ws = dom own)) as [Hd|Hd].
  - by rewrite (reconcile_same_keys _ _ Hd).
  - by rewrite (reconcile_missing_only _ _ Hsub Hd).
Qed.

Lemma load_model_unknown_raises (ignore : list string) (p : string)
    (own snapshot : state_dict) (X : string) :
  p ≠ "" →
  is_Some (snapshot !! X) →
  X ∉ ignore →
  own !! X = None →
  ∃ unexpected missing,
    (load_model ignore (Some p) own snapshot).2 = Raise (KeyMismatch unexpected missing)
    ∧ X ∈ unexpected.
Proof.
  intros Hp HX Hni Hown. unfold load_model. rewrite bool_decide_eq_false_2 by done.
  pose proof (remove_fold_lookup ignore snapshot [] X) as Hws.
  fold (remove_ignored ignore snapshot) in Hws.
  destruct (remove_ignored ignore snapshot) as [ws removed]. cbn [fst snd] in *.
  rewrite decide_False in Hws by done.
  destruct (reconcile_unexpected own ws X) as (own' & unexpected & missing & Hr & Hin).
  { apply elem_of_dom. by rewrite Hws. }
  { by apply not_elem_of_dom. }
  rewrite Hr. cbn [snd]. by exists unexpected, missing.
Qed.

(** C3. A weights file is loaded into a model that has a key [K] the snapshot
    lacks. Whatever [load_model] then does, the model's value for [K] is
    what it was and the warning line for [K] is printed exactly once. The
    method returns when every key of the snapshot is in the exclusion list
    or a key of the model (for a snapshot whose tensors fit the model's); it
    raises, after the warning, when the snapshot has a key that is neither:
    a missing key does not make a load with an unknown key recoverable. *)
Theorem missing_key_is_tolerated (ignore : list string) (p : string)
    (own snapshot : state_dict) (K : string) :
  p ≠ "" →
  is_Some (own !! K) →
  snapshot !! K = None →
  ∃ own' printed r,
    load_model ignore (Some p) own snapshot = (own', printed, r)
    ∧ own' !! K = own !! K
    ∧ count_occ String.string_dec printed ("  " +:+ K) = 1%nat
    ∧ (sizes_fit own snapshot →
       (∀ k, is_Some (snapshot !! k) → k ∈ ignore ∨ is_Some (own !! k)) →
       r = Ok ())
    ∧ (∀ X, is_Some (snapshot !! X) → X ∉ ignore → own !! X = None →
         ∃ unexpected missing,
           r = Raise (KeyMismatch unexpected missing) ∧ X ∈ unexpected).
Proof.
  intros Hp HK Hmiss.
  pose proof (load_model_lookup ignore p own snapshot K Hp) as Hlook.
  pose proof (load_model_warns_once ignore p own snapshot K Hp HK Hmiss) as Hwarn.
  pose proof (load_model_returns ignore p own snapshot Hp) as Hret.
  pose proof (λ X, load_model_unknown_raises ignore p own snapshot X Hp) as Hraise.
  destruct (load_model ignore (Some p) own snapshot) as [[own' printed] r].
  cbn [fst snd] in *. exists own', printed, r.
  split; [reflexivity|]. split; [|split; [exact Hwarn|split]].
  - rewrite Hlook, Hmiss. destruct HK as [v0 ->]. by case_decide.
  - intros _ Hknown. by apply Hret.
  - exact Hraise.
Qed.

Lemma remove_fold_kept_iff (ignore : list string) (ws : state_dict)
    (out : list string) (k : string) :
  NoDup ignore →
  kept_line k ∈ (fold_left remove_step ignore (ws, out)).2
  ↔ kept_line k ∈ out ∨ (k ∈ ignore ∧ ws !! k = None).
Proof.
  intros Hnd. revert ws out.
  induction Hnd as [|w ignore Hw Hnd IH]; intros ws out; cbn [fold_left].
  - cbn. split; [auto|]. intros [?|[H _]]; [done | by apply elem_of_nil in H].
  - rewrite remove_step_eq, IH, elem_of_app, list_elem_of_singleton. split.
    + intros [[H|H]|[Hin Hs]].
      * by left.
      * right. destruct (ws !! w) eqn:Hws.
        -- symmetry in H. by apply removed_kept_line in H.
        -- apply kept_line_inj in H as ->. split; [left | done].
      * right. split; [by right|].
        destruct (decide (k = w)) as [->|Hne]; [done|].
        by rewrite lookup_delete_ne in Hs.
    + intros [H|[Hin Hs]]; [auto|].
      destruct (decide (k = w)) as [->|Hne].
      * left. right. by rewrite Hs.
      * right. apply elem_of_cons in Hin as [?|Hin]; [done|].
        split; [done|]. by rewrite lookup_delete_ne.
Qed.

(** C5. For every name [K] of the exclusion list: the snapshot that reaches
    the overlay has no entry for [K], whether or not the loaded snapshot had
    one, and every name outside the list keeps its entry; one line is printed
    per listed name and none of this raises; the line that reports a removal
    of [K] is printed exactly when the loaded snapshot had [K], and the line
    that reports a failure to remove it is printed when it had not (and, for
    a list without repetitions, only then). *)
Theorem ignored_key_is_removed (ignore : list string) (p : string)
    (own snapshot : state_dict) (K : string) :
  K ∈ ignore →
  ∃ ws printed,
    remove_ignored ignore snapshot = (ws, printed)
    ∧ ws !! K = None
    ∧ (∀ k, k ∉ ignore → ws !! k = snapshot !! k)
    ∧ length printed = length ignore
    ∧ (removed_line K ∈ printed ↔ is_Some (snapshot !! K))
    ∧ (snapshot !! K = None → kept_line K ∈ printed)
    ∧ (NoDup ignore → kept_line K ∈ printed ↔ snapshot !! K = None)
    ∧ (p ≠ "" →
       load_model ignore (Some p) own snapshot
       = let '(own', out, r) := reconcile own ws in
         (own', ("Load weights from " +:+ p +:+ ".") :: printed ++ out, r)).
Proof.
  intros HK.
  pose proof (remove_fold_lookup ignore snapshot []) as Hlook.
  pose proof (remove_fold_length ignore snapshot []) as Hlen.
  pose proof (remove_fold_removed ignore snapshot [] K) as Hrem.
  pose proof (remove_fold_kept ignore snapshot [] K HK) as Hkept.
  pose proof (remove_fold_kept_iff ignore snapshot [] K) as Hkept'.
  unfold load_model. fold (remove_ignored ignore snapshot) in *.
  destruct (remove_ignored ignore snapshot) as [ws printed]. cbn [fst snd] in *.
  exists ws, printed. split; [reflexivity|].
  split; [rewrite Hlook; by rewrite decide_True|].
  split; [intros k Hk; rewrite Hlook; by rewrite decide_False|].
  split; [exact Hlen|].
  split.
  { rewrite Hrem. split; [|auto]. intros [H|[_ H]]; [by apply elem_of_nil in H | done]. }
  split; [exact Hkept|].
  split.
  { intros Hnd. rewrite (Hkept' Hnd). split; [|auto].
    intros [H|[_ H]]; [by apply elem_of_nil in H | done]. }
  intros Hp. by rewrite bool_decide_eq_false_2.
Qed.



(** A model with ["fc.weight"] and ["fc.bias"], a snapshot with the first
    only: the load returns, ["fc.bias"] keeps its value and is reported
    once. *)
Lemma missing_key_is_tolerated_witness :
  "w.pkl" ≠ ""
  ∧ is_Some (own_two !! "fc.bias")
  ∧ snapshot_partial !! "fc.bias" = None
  ∧ sizes_fit own_two snapshot_partial
  ∧ (∀ k, is_Some (snapshot_partial !! k) → k ∈ [] ∨ is_Some (own_two !! k))
  ∧ ∃ own' printed,
      load_model [] (Some "w.pkl") own_two snapshot_partial = (own', printed, Ok ())
      ∧ own' !! "fc.bias" = own_two !! "fc.bias"
      ∧ count_occ String.string_dec printed ("  " +:+ "fc.bias") = 1%nat.
Proof.
  assert (H1 : "w.pkl" ≠ "") by discriminate.
  assert (H2 : is_Some (own_two !! "fc.bias")) by (eexists; reflexivity).
  assert (H3 : snapshot_partial !! "fc.bias" = None) by reflexivity.
  assert (H4 : ∀ k, is_Some (snapshot_partial !! k) → k ∈ [] ∨ is_Some (own_two !! k)).
  { intros k [v Hk]. right. unfold snapshot_partial in Hk.
    apply lookup_singleton_Some in Hk as [<- _]. eexists. reflexivity. }
  assert (H5 : sizes_fit own_two snapshot_partial).
  { intros k v v0 Hk Ho. unfold snapshot_partial in Hk.
    apply lookup_singleton_Some in Hk as [<- <-].
    vm_compute in Ho. by injection Ho as <-. }
  repeat (split; [assumption|]).
  destruct (missing_key_is_tolerated [] "w.pkl" own_two snapshot_partial "fc.bias"
              H1 H2 H3) as (own' & printed & r & Hload & Hkeep & Hwarn & Hret & _).
  exists own', printed. rewrite <- (Hret H5 H4). by repeat split.
Defined.

(** The same model and a snapshot that lacks ["fc.bias"] and has a key the
    model does not know: the missing key is reported, and then the load
    raises. *)
Lemma missing_key_load_aborts :
  is_Some (own_two !! "fc.bias")
  ∧ snapshot_extra !! "fc.bias" = None
  ∧ (load_model [] (Some "w.pkl") own_two snapshot_extra).2
    = Raise (KeyMismatch ["extra.bias"] [])
  ∧ "  fc.bias" ∈ (load_model [] (Some "w.pkl") own_two snapshot_extra).1.2.
Proof.
  split; [eexists; reflexivity|]. split; [reflexivity|].
  split; [vm_compute; reflexivity|].
  refine (bool_decide_unpack _ _). vm_compute. exact I.
Defined.

(** ["extra.bias"] is listed for exclusion from a snapshot that has it. *)
Lemma ignored_key_is_removed_witness :
  "extra.bias" ∈ ["extra.bias"]
  ∧ ∃ ws printed,
      remove_ignored ["extra.bias"] snapshot_extra = (ws, printed)
      ∧ ws !! "extra.bias" = None
      ∧ (removed_line "extra.bias" ∈ printed ↔ is_Some (snapshot_extra !! "extra.bias")).
Proof.
  assert (H : "extra.bias" ∈ ["extra.bias"]) by (apply list_elem_of_In; left; reflexivity).
  split; [exact H|].
  destruct (ignored_key_is_removed ["extra.bias"] "w.pkl" own_small snapshot_extra
              "extra.bias" H) as (ws & printed & Hrun & Hgone & _ & _ & Hline & _).
  exists ws, printed. auto.
Defined.


(** ** Files *)

Lemma fs_run_app (ops1 ops2 : list fs_op) (fs : gmap string string) :
  fs_run (ops1 ++ ops2) fs = fs_run ops2 (fs_run ops1 fs).
Proof. unfold fs_run. apply fold_left_app. Qed.

Lemma fs_run_writes (p : string) (cs : list Ascii.ascii) (s : string)
    (fs : gmap string string) :
  fs_run (map (FsWrite p) cs) (<[p := s]> fs)
  = <[p := s +:+ String.string_of_list_ascii cs]> fs.
Proof.
  revert s. induction cs as [|c cs IH]; intros s.
  - cbn. by rewrite string_app_nil_r.
  - cbn [map fs_run fold_left fs_step]. fold (fs_run (map (FsWrite p) cs)).
    rewrite alter_insert_eq, IH, string_app_assoc. reflexivity.
Qed.

Lemma take_map_writes (p : string) (n : nat) (cs : list Ascii.ascii) :
  take n (map (FsWrite p) cs) = map (FsWrite p) (take n cs).
Proof. symmetry. apply (fmap_take (FsWrite p)). Qed.

Lemma pickle_dump_complete (path data : string) (fs : gmap string string) :
  fs_run (pickle_dump_ops path data) fs = <[path := data]> fs.
Proof.
  unfold pickle_dump_ops. cbn [fs_run fold_left fs_step].
  fold (fs_run (map (FsWrite path) (String.list_ascii_of_string data) ++ [FsClose path])).
  rewrite fs_run_app, fs_run_writes. cbn.
  by rewrite String.string_of_list_ascii_of_string.
Qed.

Lemma pickle_dump_interrupted_content (n : nat) (path data : string)
    (fs : gmap string string) :
  pickle_dump_interrupted (S n) path data fs = <[path := string_take n data]> fs.
Proof.
  unfold pickle_dump_interrupted, pickle_dump_ops, string_take.
  cbn [take fs_run fold_left fs_step].
  fold (fs_run (take n (map (FsWrite path) (String.list_ascii_of_string data) ++ [FsClose path]))).
  rewrite take_app, fs_run_app, take_map_writes, fs_run_writes.
  change ("" +:+ ?s) with s.
  destruct (n - length _)%nat as [|[|k]]; reflexivity.
Qed.

Lemma pickle_dump_ops_in_place (path data : string) :
  Forall (fun op => op = FsOpenW path ∨ (∃ c, op = FsWrite path c) ∨ op = FsClose path)
    (pickle_dump_ops path data).
Proof.
  unfold pickle_dump_ops. constructor; [by left|].
  apply Forall_app. split.
  - apply Forall_forall. intros op Hop. apply list_elem_of_In, in_map_iff in Hop.
    destruct Hop as (c & <- & _). right. left. by exists c.
  - constructor; [|constructor]. right. by right.
Qed.
(** ** Timing *)

(** The percentages of the three buckets. *)

Lemma timer_total_eq (t : Timer) :
  (timer_total t == dataloader t + model_ t + statistics t)%Q.
Proof. unfold timer_total, Py.sum. cbn. ring. Qed.



(** The two timing calls, computed. *)

Lemma record_time_eq (w : World) :
  record_time w
  = (Ok (now w (ticks w)), set_cur_time (now w (ticks w)) (set_ticks (S (ticks w)) w)).
Proof. reflexivity. Qed.

Lemma split_time_eq (w : World) :
  split_time w
  = (Ok (now w (ticks w) - cur_time w)%Q,
     set_cur_time (now w (S (ticks w))) (set_ticks (S (S (ticks w))) w)).
Proof. reflexivity. Qed.

(** With a clock that does not run backwards every split is non-negative,
    so the buckets only grow. *)

Lemma clock_inv_print_log (arg : Arg) (m : msg) E :
  triple clock_inv (print_log arg m) (λ _, clock_inv) E.
Proof.
  intros w [Hs Hc]. unfold print_log, mbind, Exec_bind, print, modify.
  cbn. destruct (arg_print_log arg); cbn; (split; [exact Hs|]);
    cbn; intros j Hj; apply Hc; lia.
Qed.

Lemma clock_inv_split_time E :
  triple clock_inv split_time (λ d w, (0 <= d)%Q ∧ clock_inv w) E.
Proof.
  intros w [Hs Hc]. rewrite split_time_eq. split.
  - specialize (Hc (ticks w) (le_n _)). lra.
  - split; [exact Hs|]. cbn. intros j Hj. apply Hs. lia.
Qed.

Lemma clock_inv_record_time E :
  triple clock_steady record_time (λ _, clock_inv) E.
Proof.
  intros w Hs. cbn. split; [exact Hs|]. cbn. intros j Hj. apply Hs. lia.
Qed.

Lemma timer_le_refl (t : Timer) : timer_le t t.
Proof. unfold timer_le. lra. Qed.

Lemma timer_le_trans (t1 t2 t3 : Timer) :
  timer_le t1 t2 → timer_le t2 t3 → timer_le t1 t3.
Proof. unfold timer_le. lra. Qed.

Lemma clock_inv_train_batch (arg : Arg) (env : Env) (lr : Q) (n i : Z)
    (b : batch) (timer : Timer) (losses : list Q) :
  triple clock_inv (train_batch arg env lr n i b (timer, losses))
    (λ acc w, timer_le timer acc.1 ∧ clock_inv w) (λ _ _, True).
Proof.
  unfold train_batch.
  eapply triple_bind; [apply clock_inv_split_time|]. intros d1.
  apply triple_pure. intros Hd1.
  eapply triple_bind; [apply (triple_get _ (λ _, clock_inv)); auto|]. intros w1.
  destruct (train_step env (model w1) (param_groups w1) b) as [m loss].
  eapply triple_bind; [apply (triple_modify _ _ (λ _, clock_inv)); auto|]. intros ?.
  eapply triple_bind; [apply clock_inv_split_time|]. intros d2.
  apply triple_pure. intros Hd2.
  keep clock_inv.
  { apply triple_lift. intros s Hs. by destruct (Py.mod_ i (log_interval arg)). }
  intros r.
  keep clock_inv.
  { destruct (r =? 0); [apply clock_inv_print_log | by apply triple_ret]. }
  intros ?.
  eapply triple_bind; [apply clock_inv_split_time|]. intros d3.
  apply triple_pure. intros Hd3. apply triple_ret. intros s Hs. split; [|exact Hs].
  unfold timer_le. cbn. lra.
Qed.

Lemma clock_inv_train_loop (arg : Arg) (env : Env) (lr : Q) (n : Z)
    (bs : list batch) (i : Z) (timer : Timer) (losses : list Q) :
  triple clock_inv (train_loop arg env lr n i bs (timer, losses))
    (λ acc w, timer_le timer acc.1 ∧ clock_inv w) (λ _ _, True).
Proof.
  revert i timer losses. induction bs as [|b bs IH]; intros i timer losses.
  - apply triple_ret. intros s Hs. split; [apply timer_le_refl | exact Hs].
  - cbn [train_loop]. eapply triple_bind; [apply clock_inv_train_batch|].
    intros [timer' losses']. apply triple_pure. intros Hle.
    eapply triple_weaken; [apply IH | auto | | auto].
    intros acc s [Hle' Hs]. split; [|exact Hs]. by eapply timer_le_trans.
Qed.

Lemma clock_steady_print_log (arg : Arg) (m : msg) E :
  triple clock_steady (print_log arg m) (λ _, clock_steady) E.
Proof.
  intros w Hs. unfold print_log, mbind, Exec_bind, print, modify.
  cbn. destruct (arg_print_log arg); exact Hs.
Qed.

Lemma train_batches_timer (arg : Arg) (env : Env) (epoch : Z) :
  triple clock_steady (train_batches arg env epoch)
    (λ acc _, timer_le timer_seed acc.1) (λ _ _, True).
Proof.
  unfold train_batches.
  eapply triple_bind; [apply clock_steady_print_log|]. intros ?.
  keep clock_steady.
  { unfold get_loader. destruct (data_loader env !! "train");
      [by apply triple_ret | by apply triple_lift]. }
  intros loader.
  eapply triple_bind; [apply (triple_get _ (λ _, clock_steady)); auto|]. intros w1.
  keep clock_steady.
  { apply triple_lift. intros s Hs. by destruct (adjust_learning_rate _ _ _). }
  intros [lr groups].
  eapply triple_bind; [apply (triple_modify _ _ (λ _, clock_steady)); auto|]. intros ?.
  eapply triple_bind; [apply clock_inv_record_time|]. intros ?.
  eapply triple_weaken; [apply clock_inv_train_loop | auto | | auto].
  by intros acc s [Hle _].
Qed.
(** ** One epoch of training *)

(** Nothing in [train] writes a file before the checkpoint. *)

Lemma files_model_print_log (arg : Arg) (m : msg) (fs : gmap string string)
    (sd : state_dict) E :
  triple (λ s, files s = fs ∧ model s = sd) (print_log arg m)
    (λ _ s, files s = fs ∧ model s = sd) E.
Proof.
  intros w Hw. unfold print_log, mbind, Exec_bind, print, modify. cbn.
  by destruct (arg_print_log arg).
Qed.

Lemma files_print_log (arg : Arg) (m : msg) (fs : gmap string string) E :
  triple (λ s, files s = fs) (print_log arg m) (λ _ s, files s = fs) E.
Proof.
  intros w Hw. unfold print_log, mbind, Exec_bind, print, modify. cbn.
  by destruct (arg_print_log arg).
Qed.

Lemma files_split_time (fs : gmap string string) E :
  triple (λ s, files s = fs) split_time (λ _ s, files s = fs) E.
Proof. intros w Hw. by rewrite split_time_eq. Qed.

Lemma files_train_batch (arg : Arg) (env : Env) (lr : Q) (n i : Z) (b : batch)
    (acc : Timer * list Q) (fs : gmap string string) :
  triple (λ s, files s = fs) (train_batch arg env lr n i b acc)
    (λ _ s, files s = fs) (λ _ s, files s = fs).
Proof.
  unfold train_batch. destruct acc as [timer losses].
  eapply triple_bind; [apply files_split_time|]. intros d1.
  keep (λ s, files s = fs); [by apply triple_get|]. intros w1.
  destruct (train_step env (model w1) (param_groups w1) b) as [m loss].
  keep (λ s, files s = fs); [by apply triple_modify|]. intros ?.
  eapply triple_bind; [apply files_split_time|]. intros d2.
  keep (λ s, files s = fs).
  { apply triple_lift. intros s Hs. by destruct (Py.mod_ i (log_interval arg)). }
  intros r.
  keep (λ s, files s = fs).
  { destruct (r =? 0); [apply files_print_log | by apply triple_ret]. }
  intros ?.
  eapply triple_bind; [apply files_split_time|]. intros d3.
  by apply triple_ret.
Qed.

Lemma files_train_loop (arg : Arg) (env : Env) (lr : Q) (n : Z) (bs : list batch)
    (i : Z) (acc : Timer * list Q) (fs : gmap string string) :
  triple (λ s, files s = fs) (train_loop arg env lr n i bs acc)
    (λ _ s, files s = fs) (λ _ s, files s = fs).
Proof.
  revert i acc. induction bs as [|b bs IH]; intros i acc.
  - by apply triple_ret.
  - cbn [train_loop]. eapply triple_bind; [apply files_train_batch|].
    intros acc'. apply IH.
Qed.

Lemma files_train_batches (arg : Arg) (env : Env) (epoch : Z)
    (fs : gmap string string) :
  triple (λ s, files s = fs) (train_batches arg env epoch)
    (λ _ s, files s = fs) (λ _ s, files s = fs).
Proof.
  unfold train_batches.
  eapply triple_bind; [apply files_print_log|]. intros ?.
  keep (λ s, files s = fs).
  { unfold get_loader. destruct (data_loader env !! "train");
      [by apply triple_ret | by apply triple_lift]. }
  intros loader.
  keep (λ s, files s = fs); [by apply triple_get|]. intros w1.
  keep (λ s, files s = fs).
  { apply triple_lift. intros s Hs. by destruct (adjust_learning_rate _ _ _). }
  intros [lr groups].
  keep (λ s, files s = fs); [by apply triple_modify|]. intros ?.
  keep (λ s, files s = fs).
  { intros w Hw. by rewrite record_time_eq. }
  intros ?. apply files_train_loop.
Qed.

Lemma save_checkpoint_files (arg : Arg) (env : Env) (epoch : Z)
    (fs : gmap string string) E :
  triple (λ s, files s = fs) (save_checkpoint arg env epoch)
    (λ _ s, files s = <[model_path arg epoch := pickled env (model s)]> fs) E.
Proof.
  unfold save_checkpoint.
  eapply (triple_bind _ _ _ (λ w s, files s = fs ∧ model s = model w)).
  { by apply triple_get. }
  intros w.
  eapply (triple_bind _ _ _
            (λ _ s, files s = <[model_path arg epoch := pickled env (model w)]> fs
                    ∧ model s = model w)).
  { unfold pickle_dump. apply triple_modify. intros s [Hfs Hm]. cbn [files set_files model].
    by rewrite pickle_dump_complete, Hfs, Hm. }
  intros ?.
  eapply triple_weaken;
    [apply (files_model_print_log _ _ (<[model_path arg epoch := pickled env (model w)]> fs)
              (model w) E) | ..].
  - intros s Hs. exact Hs.
  - intros ? s [Hfs ->]. exact Hfs.
  - intros e s He. exact He.
Qed.

(** [train] writes the checkpoint of the epoch when [save_model] is set, and
    no file otherwise or when it raises. *)
Lemma train_files (arg : Arg) (env : Env) (epoch : Z) (save_model : bool)
    (fs : gmap string string) :
  triple (λ s, files s = fs) (train arg env epoch save_model)
    (λ _ s, files s
            = if save_model
              then <[model_path arg epoch := pickled env (model s)]> fs
              else fs)
    (λ _ s, files s = fs).
Proof.
  unfold train.
  eapply triple_bind; [apply files_train_batches|]. intros [timer loss_value].
  keep (λ s, files s = fs).
  { apply triple_lift. intros s Hs. by destruct (proportion timer). }
  intros p.
  eapply triple_bind; [apply files_print_log|]. intros ?.
  eapply triple_bind; [apply files_print_log|]. intros ?.
  destruct save_model; [apply save_checkpoint_files | by apply triple_ret].
Qed.

(** *** The checkpoint *)

Lemma save_checkpoint_run (arg : Arg) (env : Env) (epoch : Z) (w : World) :
  ∃ w', save_checkpoint arg env epoch w = (Ok (), w')
    ∧ files w' = <[model_path arg epoch := pickled env (model w)]> (files w).
Proof.
  eassert (H : triple (λ s, s = w) (save_checkpoint arg env epoch) _ (λ _ _, False)).
  { unfold save_checkpoint.
    eapply (triple_bind _ _ _ (λ w1 s, w1 = w ∧ s = w)); [by apply triple_get|].
    intros w1. apply triple_pure. intros ->.
    eapply (triple_bind _ _ _
              (λ _ s, files s = <[model_path arg epoch := pickled env (model w)]> (files w))).
    { unfold pickle_dump. apply triple_modify. intros s ->. cbn [files set_files].
      apply pickle_dump_complete. }
    intros ?. apply files_print_log. }
  destruct (triple_total _ _ _ w H eq_refl) as ([] & w' & Hrun & Hfs). eauto.
Qed.

(** C6, as amended. The checkpoint is written in place: the write is the
    opening of the target path for writing, the characters of the pickled
    snapshot one after the other, and the closing of the file, with no
    temporary file and no renaming. A save that runs to its end leaves the
    pickled snapshot at the target path. A save that is stopped after its
    first step or later leaves at the target path the characters written so
    far, a prefix of the pickled snapshot, in place of what the file held. *)
Theorem checkpoint_written_in_place (arg : Arg) (env : Env) (epoch : Z) (w : World) :
  Forall (λ op, op = FsOpenW (model_path arg epoch)
                ∨ (∃ c, op = FsWrite (model_path arg epoch) c)
                ∨ op = FsClose (model_path arg epoch))
    (pickle_dump_ops (model_path arg epoch) (pickled env (model w)))
  ∧ (∃ w', save_checkpoint arg env epoch w = (Ok (), w')
       ∧ files w' = <[model_path arg epoch := pickled env (model w)]> (files w))
  ∧ pickle_dump_interrupted 0 (model_path arg epoch) (pickled env (model w)) (files w)
    = files w
  ∧ ∀ n : nat,
      pickle_dump_interrupted (S n) (model_path arg epoch) (pickled env (model w)) (files w)
      = <[model_path arg epoch := string_take n (pickled env (model w))]> (files w).
Proof.
  split; [apply pickle_dump_ops_in_place|].
  split; [apply save_checkpoint_run|].
  split; [reflexivity|].
  intros n. apply pickle_dump_interrupted_content.
Qed.

(** C6, the claim as stated fails: the checkpoint of epoch 9 exists, its
    rewriting is stopped after four steps, and the file holds the first three
    characters of the new pickle, neither the previous checkpoint nor the new
    one. *)
Lemma checkpoint_save_leaves_partial_file :
  pickle_dump_interrupted 4 (model_path arg_default 9) (pickled env_small own_small)
    {[ model_path arg_default 9 := "previous" ]} !! model_path arg_default 9
  = Some "pic"
  ∧ pickled env_small own_small = "pickle".
Proof. split; vm_compute; reflexivity. Qed.

(** The checkpoint of epoch 9 of the small processor, stopped after four
    steps: the three characters written so far are at the target path. *)
Lemma checkpoint_written_in_place_witness :
  pickle_dump_interrupted 4 (model_path arg_default 9)
    (pickled env_small (model world_ticking)) (files world_ticking)
  !! "work/epoch10_model.pkl"
  = Some "pic".
Proof.
  destruct (checkpoint_written_in_place arg_default env_small 9 world_ticking)
    as (_ & _ & _ & Hcut).
  rewrite (Hcut 3%nat). vm_compute. reflexivity.
Defined.

(** *** The timer *)








(** ** Evaluation *)

(** The record of a pass. *)

Lemma score_dict_positional (names : list string) (score : list tensor) :
  NoDup names →
  (∀ i name row, names !! i = Some name → score !! i = Some row →
     score_dict names score !! name = Some row)
  ∧ (∀ name row, score_dict names score !! name = Some row →
       ∃ i, names !! i = Some name ∧ score !! i = Some row)
  ∧ size (score_dict names score) = min (length names) (length score).
Proof.
  intros Hnd. pose proof (NoDup_fst_zip names score Hnd) as Hz.
  unfold score_dict. split; [|split].
  - intros i name row Hn Hs. apply (dict_lookup _ _ _ Hz).
    apply list_elem_of_lookup. exists i. by apply lookup_zip.
  - intros name row H. apply (dict_lookup _ _ _ Hz) in H.
    apply list_elem_of_lookup in H as [i Hi]. exists i. by apply lookup_zip.
  - by rewrite (dict_size _ Hz), length_zip.
Qed.


Lemma eval_frame_refl (w : World) : eval_frame w w.
Proof.
  unfold eval_frame. repeat split. exists []. by rewrite app_nil_r.
Qed.

Lemma eval_frame_print_log (arg : Arg) (m : msg) (w0 : World)
    (fs : gmap string string) E :
  (∀ t, eval_line (Stamped t m)) →
  triple (λ s, eval_frame w0 s ∧ files s = fs) (print_log arg m)
    (λ _ s, eval_frame w0 s ∧ files s = fs) E.
Proof.
  intros Hm w [(Hmod & Hpg & Hct & Hnow & new & Hout & Hnew) Hfs].
  unfold print_log, mbind, Exec_bind, print, modify. cbn.
  assert (Hnew' : Forall eval_line (new ++ [Stamped (now w (ticks w)) m])).
  { apply Forall_app. split; [done|]. constructor; [apply Hm | constructor]. }
  destruct (arg_print_log arg); cbn; (split; [|done]); unfold eval_frame; cbn;
    (repeat split; try done);
    exists (new ++ [Stamped (now w (ticks w)) m]); (split; [|done]);
    by rewrite Hout, <- app_assoc.
Qed.

Lemma eval_batches_length (env : Env) (m : state_dict) (bs : list batch) :
  length (eval_batches env m bs).1 = length bs.
Proof.
  unfold eval_batches.
  assert (H : ∀ acc : list (list tensor) * list Q,
             length (fold_left
               (λ (acc : list (list tensor) * list Q) b,
                  let '(output, loss) := infer env m b in
                  (acc.1 ++ [output], acc.2 ++ [loss])) bs acc).1
             = (length acc.1 + length bs)%nat).
  { induction bs as [|b bs IH]; intros acc; cbn [fold_left]; [cbn; lia|].
    rewrite IH. destruct (infer env m b). cbn. rewrite length_app. cbn. lia. }
  by rewrite H.
Qed.

Lemma np_concatenate_ok {A} (frags : list (list A)) :
  frags ≠ [] → Np.concatenate frags = Ok (concat frags).
Proof. by destruct frags. Qed.

Lemma eval_frame_topk (arg : Arg) (w0 : World) (fs : gmap string string)
    (f : Z → Q) (ks : list Z) E :
  triple (λ s, eval_frame w0 s ∧ files s = fs)
    (for_ ks (λ k, print_log arg (TopK k (f k))))
    (λ _ s, eval_frame w0 s ∧ files s = fs) E.
Proof. apply triple_for. intros k _. by apply eval_frame_print_log. Qed.

Lemma eval_split_frame (arg : Arg) (env : Env) (epoch : Z) (save_score : bool)
    (ln : string) (w0 : World) (fs : gmap string string) :
  triple (λ s, eval_frame w0 s ∧ files s = fs)
    (eval_split arg env epoch save_score ln)
    (λ _ s, eval_frame w0 s
            ∧ (files s = fs ∨ ∃ data, files s = <[score_path arg epoch ln := data]> fs))
    (λ _ s, eval_frame w0 s ∧ files s = fs).
Proof.
  unfold eval_split.
  keep (λ s, eval_frame w0 s ∧ files s = fs).
  { unfold get_loader. destruct (data_loader env !! ln);
      [by apply triple_ret | by apply triple_lift]. }
  intros loader.
  keep (λ s, eval_frame w0 s ∧ files s = fs);
    [by apply triple_get|]. intros w.
  destruct (eval_batches env (model w) (batches loader epoch)) as [score_frag loss_value].
  keep (λ s, eval_frame w0 s ∧ files s = fs).
  { apply triple_lift. intros s Hs. by destruct (Np.concatenate score_frag). }
  intros score.
  eapply triple_bind; [by apply eval_frame_print_log|]. intros ?.
  eapply triple_bind; [apply eval_frame_topk|]. intros ?.
  destruct save_score.
  - unfold pickle_dump. apply triple_modify. intros s [Hf Hfs]. split; [exact Hf|].
    right. eexists. cbn [files set_files]. rewrite pickle_dump_complete, Hfs. reflexivity.
  - apply triple_ret. intros s [Hf Hfs]. auto.
Qed.

Lemma eval_split_run (arg : Arg) (env : Env) (epoch : Z) (save_score : bool)
    (ln : string) (loader : Loader) (w0 : World) (fs : gmap string string) :
  data_loader env !! ln = Some loader →
  batches loader epoch ≠ [] →
  triple (λ s, eval_frame w0 s ∧ files s = fs)
    (eval_split arg env epoch save_score ln)
    (λ _ s, eval_frame w0 s
            ∧ files s
              = if save_score
                then <[score_path arg epoch ln
                       := pickled env
                            (score_dict (sample_name loader)
                               (concat (eval_batches env (model w0)
                                          (batches loader epoch)).1))]> fs
                else fs)
    (λ _ _, False).
Proof.
  intros Hl Hbs. unfold eval_split, get_loader. rewrite Hl.
  apply triple_bind_ret.
  eapply (triple_bind _ _ _ (λ w s, model w = model w0 ∧ eval_frame w0 s ∧ files s = fs)).
  { apply triple_get. intros s [Hf Hfs]. split; [apply Hf | done]. }
  intros w. apply triple_pure. intros ->.
  pose proof (eval_batches_length env (model w0) (batches loader epoch)) as Hlen.
  destruct (eval_batches env (model w0) (batches loader epoch)) as [score_frag loss_value].
  cbn [fst] in *.
  rewrite np_concatenate_ok by (intros ->; by destruct (batches loader epoch)).
  apply (triple_bind_ret _ (concat score_frag)).
  eapply triple_bind; [by apply eval_frame_print_log|]. intros ?.
  eapply triple_bind; [apply eval_frame_topk|]. intros ?.
  destruct save_score.
  - unfold pickle_dump. apply triple_modify. intros s [Hf Hfs]. split; [exact Hf|].
    cbn [files set_files]. by rewrite pickle_dump_complete, Hfs.
  - by apply triple_ret.
Qed.

(** The file of a score record is never the file of a checkpoint. *)
Lemma score_path_model_path (arg : Arg) (e e' : Z) (ln : string) :
  score_path arg e ln ≠ model_path arg e'.
Proof.
  unfold score_path, model_path. intros H.
  rewrite <- !string_app_assoc in H.
  apply string_app_inj_tail in H; [discriminate H | reflexivity].
Qed.

(** [eval] over one split. *)
Lemma eval_one_split (arg : Arg) (env : Env) (epoch : Z) (save_score : bool)
    (ln : string) (w : World) :
  eval arg env epoch save_score [ln] w
  = (print_log arg (EvalEpoch (epoch + 1)) ;;
     eval_split arg env epoch save_score ln) w.
Proof.
  unfold eval. cbn [for_]. unfold mbind, Exec_bind.
  destruct (print_log arg (EvalEpoch (epoch + 1)) w) as [[[]|e] w1]; [|reflexivity].
  by destruct (eval_split arg env epoch save_score ln w1) as [[[]|e] w2].
Qed.

(** Whatever happens, [eval] trains nothing and writes at most the score
    file of the split. *)
Lemma eval_frame_any (arg : Arg) (env : Env) (epoch : Z) (save_score : bool)
    (ln : string) (w : World) :
  let '(r, w') := eval arg env epoch save_score [ln] w in
  eval_frame w w'
  ∧ (files w' = files w
     ∨ ∃ data, files w' = <[score_path arg epoch ln := data]> (files w)).
Proof.
  rewrite eval_one_split.
  assert (H : triple (λ s, eval_frame w s ∧ files s = files w)
                (print_log arg (EvalEpoch (epoch + 1)) ;;
                 eval_split arg env epoch save_score ln)
                (λ _ s, eval_frame w s
                        ∧ (files s = files w
                           ∨ ∃ data, files s = <[score_path arg epoch ln := data]> (files w)))
                (λ _ s, eval_frame w s ∧ files s = files w)).
  { eapply triple_bind; [by apply eval_frame_print_log|]. intros ?.
    apply eval_split_frame. }
  specialize (H w (conj (eval_frame_refl w) eq_refl)).
  destruct ((print_log arg (EvalEpoch (epoch + 1)) ;;
             eval_split arg env epoch save_score ln) w) as [[[]|e] w'].
  - exact H.
  - destruct H as [Hf Hfs]. auto.
Qed.

(** With the split loaded and at least one batch in it, [eval] returns and
    the score record is on file. *)
Lemma eval_persists (arg : Arg) (env : Env) (epoch : Z) (save_score : bool)
    (ln : string) (loader : Loader) (w : World) :
  data_loader env !! ln = Some loader →
  batches loader epoch ≠ [] →
  ∃ w', eval arg env epoch save_score [ln] w = (Ok (), w')
    ∧ eval_frame w w'
    ∧ files w'
      = if save_score
        then <[score_path arg epoch ln
               := pickled env
                    (score_dict (sample_name loader)
                       (concat (eval_batches env (model w) (batches loader epoch)).1))]>
               (files w)
        else files w.
Proof.
  intros Hl Hbs. rewrite eval_one_split.
  eassert (H : triple (λ s, eval_frame w s ∧ files s = files w)
                (print_log arg (EvalEpoch (epoch + 1)) ;;
                 eval_split arg env epoch save_score ln) _ (λ _ _, False)).
  { eapply triple_bind; [by apply eval_frame_print_log|]. intros ?.
    by apply (eval_split_run _ _ _ _ _ loader). }
  destruct (triple_total _ _ _ w H (conj (eval_frame_refl w) eq_refl))
    as ([] & w' & Hrun & Hf & Hfs).
  exists w'. by rewrite Hrun.
Qed.

(** C10. An evaluation pass over a split that is loaded, has at least one
    batch and names its samples without repetition returns without raising,
    whatever the number of names and of scored samples; it prints nothing but
    the lines of the loss and the accuracy; its score record (the one it
    writes when asked to) pairs the i-th name with the i-th row of the
    concatenated outputs, for every i both sequences have, and holds nothing
    else: min(number of names, number of rows) entries. *)
Theorem score_record_is_truncated_zip (arg : Arg) (env : Env) (epoch : Z)
    (save_score : bool) (ln : string) (loader : Loader) (w : World) :
  data_loader env !! ln = Some loader →
  batches loader epoch ≠ [] →
  NoDup (sample_name loader) →
  ∃ (score : list tensor) (w' : World),
    score = concat (eval_batches env (model w) (batches loader epoch)).1
    ∧ eval_split arg env epoch save_score ln w = (Ok (), w')
    ∧ eval_frame w w'
    ∧ files w'
      = (if save_score
         then <[score_path arg epoch ln
                := pickled env (score_dict (sample_name loader) score)]> (files w)
         else files w)
    ∧ (∀ i name row,
         sample_name loader !! i = Some name → score !! i = Some row →
         score_dict (sample_name loader) score !! name = Some row)
    ∧ (∀ name row,
         score_dict (sample_name loader) score !! name = Some row →
         ∃ i, sample_name loader !! i = Some name ∧ score !! i = Some row)
    ∧ size (score_dict (sample_name loader) score)
      = min (length (sample_name loader)) (length score).
Proof.
  intros Hl Hbs Hnd.
  destruct (triple_total _ _ _ w
              (eval_split_run arg env epoch save_score ln loader w (files w) Hl Hbs)
              (conj (eval_frame_refl w) eq_refl))
    as ([] & w' & Hrun & Hf & Hfs).
  destruct (score_dict_positional (sample_name loader)
              (concat (eval_batches env (model w) (batches loader epoch)).1) Hnd)
    as (Hpos & Hinv & Hsize).
  eexists _, w'. split; [reflexivity|]. auto 10.
Qed.

(** Three names, two scored samples: the pass returns, the record has two
    entries, and the third sample is not in it. *)
Lemma score_record_is_truncated_zip_witness :
  data_loader env_small !! "test" = Some loader_test
  ∧ batches loader_test 3 ≠ []
  ∧ NoDup (sample_name loader_test)
  ∧ ∃ (score : list tensor) (w' : World),
      eval_split arg_test env_small 3 true "test" world_ticking = (Ok (), w')
      ∧ length (sample_name loader_test) = 3%nat
      ∧ length score = 2%nat
      ∧ size (score_dict (sample_name loader_test) score) = 2%nat
      ∧ score_dict (sample_name loader_test) score !! "s3" = None.
Proof.
  assert (H1 : data_loader env_small !! "test" = Some loader_test) by reflexivity.
  assert (H2 : batches loader_test 3 ≠ []) by discriminate.
  assert (H3 : NoDup (sample_name loader_test)).
  { refine (bool_decide_unpack _ _). vm_compute. exact I. }
  repeat (split; [assumption|]).
  destruct (score_record_is_truncated_zip arg_test env_small 3 true "test" loader_test
              world_ticking H1 H2 H3)
    as (score & w' & -> & Hrun & _ & _ & _ & _ & Hsize).
  exists (concat (eval_batches env_small (model world_ticking) (batches loader_test 3)).1), w'.
  split; [exact Hrun|]. split; [reflexivity|].
  split; [reflexivity|]. split; [rewrite Hsize; reflexivity|].
  vm_compute. reflexivity.
Defined.
(** ** The epoch loop *)

Lemma due_flag (arg : Arg) (interval e : Z) :
  interval ≠ 0 →
  Py.mod_ (e + 1) interval = Ok ((e + 1) mod interval)
  ∧ ((e + 1) mod interval =? 0) || (e + 1 =? num_epoch arg)
    = bool_decide (due arg interval e).
Proof.
  intros Hi. unfold Py.mod_. rewrite (proj2 (Z.eqb_neq _ _) Hi). split; [done|].
  unfold due. destruct (Z.eqb_spec ((e + 1) mod interval) 0),
    (Z.eqb_spec (e + 1) (num_epoch arg)); cbn;
    symmetry; (apply bool_decide_eq_true; tauto) || (apply bool_decide_eq_false; tauto).
Qed.

Section Body.
Context {S : Type}.
Variable train_ : Z → bool → Exec S unit.
Variable eval_ : Z → bool → list string → Exec S unit.

Lemma start_epoch_body_calls (arg : Arg) (e : Z) (s : S) :
  save_interval arg ≠ 0 → eval_interval arg ≠ 0 →
  start_epoch_body train_ eval_ arg e s = run_calls train_ eval_ (epoch_calls arg e) s.
Proof.
  intros Hs He. unfold start_epoch_body, run_calls, epoch_calls.
  destruct (due_flag arg _ e Hs) as [Hm1 Hf1], (due_flag arg _ e He) as [Hm2 Hf2].
  rewrite Hm1, Hm2. unfold lift, mbind, Exec_bind. cbn beta iota zeta.
  rewrite Hf1, Hf2. cbn [for_ run_call].
  unfold mbind, Exec_bind.
  destruct (train_ e _ s) as [[[]|x] s1]; [|reflexivity].
  destruct (bool_decide (due arg (eval_interval arg) e)); cbn [for_ run_call]; [|reflexivity].
  unfold mbind, Exec_bind, mret, Exec_ret.
  by destruct (eval_ e true ["test"] s1) as [[[]|x] s2].
Qed.

Lemma for_start_epoch_body (arg : Arg) (es : list Z) (s : S) :
  save_interval arg ≠ 0 → eval_interval arg ≠ 0 →
  for_ es (start_epoch_body train_ eval_ arg) s
  = run_calls train_ eval_ (flat_map (epoch_calls arg) es) s.
Proof.
  intros Hs He. revert s. induction es as [|e es IH]; intros s; [reflexivity|].
  cbn [for_ flat_map]. unfold run_calls. rewrite for_app.
  unfold mbind, Exec_bind.
  rewrite start_epoch_body_calls by done. unfold run_calls.
  destruct (for_ (epoch_calls arg e) (run_call train_ eval_) s) as [[[]|x] s1]; [|reflexivity].
  apply IH.
Qed.
End Body.

Lemma run_calls_record (cs cs0 : list call) :
  run_calls record_train record_eval cs cs0 = (Ok (), cs0 ++ cs).
Proof.
  revert cs0. induction cs as [|c cs IH]; intros cs0.
  - cbn. by rewrite app_nil_r.
  - unfold run_calls in *. cbn [for_]. unfold mbind, Exec_bind.
    destruct c; cbn [run_call]; unfold record_train, record_eval, modify;
      rewrite IH, <- app_assoc; reflexivity.
Qed.

Lemma elem_of_epoch_calls (arg : Arg) (e : Z) (c : call) :
  c ∈ epoch_calls arg e
  ↔ c = CallTrain e (bool_decide (due arg (save_interval arg) e))
    ∨ (due arg (eval_interval arg) e ∧ c = CallEval e true ["test"]).
Proof.
  unfold epoch_calls. rewrite elem_of_cons.
  destruct (decide (due arg (eval_interval arg) e)) as [Hd|Hd].
  - rewrite (bool_decide_eq_true_2 _ Hd), list_elem_of_singleton. tauto.
  - rewrite (bool_decide_eq_false_2 _ Hd).
    split; [intros [?|?%elem_of_nil]; tauto | tauto].
Qed.

Lemma elem_of_flat_map_calls (arg : Arg) (es : list Z) (c : call) :
  c ∈ flat_map (epoch_calls arg) es ↔ ∃ e, e ∈ es ∧ c ∈ epoch_calls arg e.
Proof.
  rewrite list_elem_of_In, in_flat_map. split.
  - intros (e & He & Hc). exists e. by rewrite !list_elem_of_In.
  - intros (e & He & Hc). exists e. by rewrite <- !list_elem_of_In.
Qed.

Lemma phase_train (arg : Arg) :
  phase arg = "train" → ∀ {S} (train_ : Z → bool → Exec S unit)
    (eval_ : Z → bool → list string → Exec S unit),
  start_with train_ eval_ arg
  = for_ (Py.range (start_epoch arg) (num_epoch arg)) (start_epoch_body train_ eval_ arg).
Proof. intros H S train_ eval_. unfold start_with. by rewrite H. Qed.

(** A zero interval makes the first epoch raise before it trains. *)
Lemma start_zero_interval (arg : Arg) :
  phase arg = "train" →
  start_epoch arg < num_epoch arg →
  save_interval arg = 0 ∨ eval_interval arg = 0 →
  start_calls arg = (Raise ZeroDivisionError, []).
Proof.
  intros Hphase Hlt Hzero. unfold start_calls. rewrite (phase_train arg Hphase).
  unfold Py.range.
  destruct (Z.to_nat (num_epoch arg - start_epoch arg)) as [|n] eqn:Hn; [lia|].
  cbn [seq map for_]. unfold mbind, Exec_bind, start_epoch_body, lift, Py.mod_.
  destruct (Z.eqb_spec (save_interval arg) 0) as [Hs|Hs]; [reflexivity|].
  destruct Hzero as [?|He]; [done|]. unfold mbind, Exec_bind. by rewrite He.
Qed.

(** C2. In the Train phase, with a save interval and an evaluation interval
    other than zero, [start] returns after making, for each epoch [e] of
    [range(start_epoch, num_epoch)] in order, the call [train(e, save_model)]
    and then, when due, the call [eval(e, save_score=True, ['test'])], where
    [save_model] holds exactly when [(e+1) mod save_interval == 0] or
    [e+1 == num_epoch] and the evaluation is due exactly when
    [(e+1) mod eval_interval == 0] or [e+1 == num_epoch]. The processor's own
    [start] runs these calls with [train] and [eval], up to the first that
    raises; and a [train] that returns has written the checkpoint of its epoch
    when [save_model] was set and no file otherwise. *)
Theorem start_train_phase_schedule (arg : Arg) :
  phase arg = "train" →
  save_interval arg ≠ 0 →
  eval_interval arg ≠ 0 →
  ∃ calls : list call,
    start_calls arg = (Ok (), calls)
    ∧ calls = flat_map (epoch_calls arg) (Py.range (start_epoch arg) (num_epoch arg))
    ∧ (∀ env w, start arg env w = run_calls (train arg env) (eval arg env) calls w)
    ∧ (∀ e : Z, start_epoch arg ≤ e < num_epoch arg →
         (∃ save_model, CallTrain e save_model ∈ calls)
         ∧ (CallTrain e true ∈ calls ↔ due arg (save_interval arg) e)
         ∧ (CallTrain e false ∈ calls ↔ ¬ due arg (save_interval arg) e)
         ∧ (CallEval e true ["test"] ∈ calls ↔ due arg (eval_interval arg) e)
         ∧ (∀ save_score loader_name,
              CallEval e save_score loader_name ∈ calls →
              save_score = true ∧ loader_name = ["test"]))
    ∧ (∀ env e save_model w w',
         train arg env e save_model w = (Ok (), w') →
         files w'
         = if save_model
           then <[model_path arg e := pickled env (model w')]> (files w)
           else files w).
Proof.
  intros Hphase Hs He.
  exists (flat_map (epoch_calls arg) (Py.range (start_epoch arg) (num_epoch arg))).
  split; [|split; [reflexivity|split; [|split]]].
  - unfold start_calls. rewrite (phase_train arg Hphase).
    rewrite for_start_epoch_body by done. apply run_calls_record.
  - intros env w. unfold start. rewrite (phase_train arg Hphase).
    by apply for_start_epoch_body.
  - intros e Hrange. apply elem_of_range in Hrange.
    assert (Htrain : ∀ b, CallTrain e b ∈ flat_map (epoch_calls arg)
                            (Py.range (start_epoch arg) (num_epoch arg))
                          ↔ b = bool_decide (due arg (save_interval arg) e)).
    { intros b. rewrite elem_of_flat_map_calls. split.
      - intros (e' & _ & Hc). apply elem_of_epoch_calls in Hc as [[= -> ->]|[_ [=]]].
        reflexivity.
      - intros ->. exists e. split; [done|]. apply elem_of_epoch_calls. by left. }
    assert (Heval : ∀ s names, CallEval e s names ∈ flat_map (epoch_calls arg)
                                 (Py.range (start_epoch arg) (num_epoch arg))
                               ↔ due arg (eval_interval arg) e ∧ s = true ∧ names = ["test"]).
    { intros s names. rewrite elem_of_flat_map_calls. split.
      - intros (e' & _ & Hc). apply elem_of_epoch_calls in Hc as [[=]|[Hd [= -> -> ->]]].
        done.
      - intros (Hd & -> & ->). exists e. split; [done|].
        apply elem_of_epoch_calls. by right. }
    split; [eexists; by apply Htrain|].
    split.
    { rewrite Htrain. split; [intros H; symmetry in H; by apply bool_decide_eq_true in H|].
      intros H. symmetry. by apply bool_decide_eq_true. }
    split.
    { rewrite Htrain. split; [intros H; symmetry in H; by apply bool_decide_eq_false in H|].
      intros H. symmetry. by apply bool_decide_eq_false. }
    split; [rewrite Heval; tauto|].
    intros s names Hc. apply Heval in Hc. tauto.
  - intros env e save_model w w' Hrun.
    exact (triple_ok _ _ _ _ _ _ _ (train_files arg env e save_model (files w)) eq_refl Hrun).
Qed.

(** With the defaults (80 epochs, a checkpoint every 10, an evaluation every
    5): epoch 9 saves and evaluates, epoch 4 evaluates without saving, epoch 0
    does neither, epoch 78 does neither and epoch 79, the last, does both. *)
Lemma start_train_phase_schedule_witness :
  phase arg_default = "train"
  ∧ save_interval arg_default ≠ 0
  ∧ eval_interval arg_default ≠ 0
  ∧ ∃ calls : list call,
      start_calls arg_default = (Ok (), calls)
      ∧ CallTrain 9 true ∈ calls ∧ CallEval 9 true ["test"] ∈ calls
      ∧ CallTrain 4 false ∈ calls ∧ CallEval 4 true ["test"] ∈ calls
      ∧ CallTrain 0 false ∈ calls ∧ (CallEval 0 true ["test"] ∉ calls)
      ∧ CallTrain 78 false ∈ calls ∧ (CallEval 78 true ["test"] ∉ calls)
      ∧ CallTrain 79 true ∈ calls ∧ CallEval 79 true ["test"] ∈ calls.
Proof.
  assert (H1 : phase arg_default = "train") by reflexivity.
  assert (H2 : save_interval arg_default ≠ 0) by discriminate.
  assert (H3 : eval_interval arg_default ≠ 0) by discriminate.
  repeat (split; [assumption|]).
  destruct (start_train_phase_schedule arg_default H1 H2 H3)
    as (calls & Hrun & _ & _ & Hsched & _).
  exists calls. split; [exact Hrun|].
  pose proof (Hsched 9 ltac:(cbn; lia)) as (_ & Hs9 & _ & He9 & _).
  pose proof (Hsched 4 ltac:(cbn; lia)) as (_ & _ & Hs4 & He4 & _).
  pose proof (Hsched 0 ltac:(cbn; lia)) as (_ & _ & Hs0 & He0 & _).
  pose proof (Hsched 78 ltac:(cbn; lia)) as (_ & _ & Hs78 & He78 & _).
  pose proof (Hsched 79 ltac:(cbn; lia)) as (_ & Hs79 & _ & He79 & _).
  assert (Hno : ∀ interval e, ((e + 1) mod interval =? 0) || (e + 1 =? 80) = false →
                 ¬ due arg_default interval e).
  { intros interval e Hb [H|H]; apply orb_false_elim in Hb as [Hb1 Hb2].
    - apply Z.eqb_neq in Hb1. contradiction.
    - apply Z.eqb_neq in Hb2. contradiction. }
  repeat split.
  - apply Hs9. left. reflexivity.
  - apply He9. left. reflexivity.
  - apply Hs4, Hno. reflexivity.
  - apply He4. left. reflexivity.
  - apply Hs0, Hno. reflexivity.
  - rewrite He0. apply Hno. reflexivity.
  - apply Hs78, Hno. reflexivity.
  - rewrite He78. apply Hno. reflexivity.
  - apply Hs79. right. reflexivity.
  - apply He79. right. reflexivity.
Defined.

(** C7. In the Test phase [start] makes one call, [eval(start_epoch,
    save_score=True, ['test'])], and no call of [train]; the processor's own
    [start] is that evaluation and returns or raises as it does. Whatever it
    does, the parameters of the model and of the optimizer are what they were
    and no checkpoint path is written; and when the test split is loaded and
    has a batch, it returns with the score record of [start_epoch] on file. *)
Theorem start_test_phase (arg : Arg) :
  phase arg = "test" →
  start_calls arg = (Ok (), [CallEval (start_epoch arg) true ["test"]])
  ∧ (∀ env w, start arg env w = eval arg env (start_epoch arg) true ["test"] w)
  ∧ (∀ env w r w',
       start arg env w = (r, w') →
       eval_frame w w'
       ∧ ∀ e, files w' !! model_path arg e = files w !! model_path arg e)
  ∧ (∀ env w loader,
       data_loader env !! "test" = Some loader →
       batches loader (start_epoch arg) ≠ [] →
       ∃ w', start arg env w = (Ok (), w')
         ∧ files w'
           = <[score_path arg (start_epoch arg) "test"
               := pickled env
                    (score_dict (sample_name loader)
                       (concat (eval_batches env (model w)
                                  (batches loader (start_epoch arg))).1))]>
               (files w)).
Proof.
  intros Hphase.
  assert (Htrain : phase arg ≠ "train") by (rewrite Hphase; discriminate).
  assert (Hstart : ∀ {S} (train_ : Z → bool → Exec S unit)
                     (eval_ : Z → bool → list string → Exec S unit),
             start_with train_ eval_ arg = eval_ (start_epoch arg) true ["test"]).
  { intros S train_ eval_. unfold start_with.
    rewrite (bool_decide_eq_false_2 _ Htrain). by rewrite (bool_decide_eq_true_2 _ Hphase). }
  split; [|split; [|split]].
  - unfold start_calls. by rewrite Hstart.
  - intros env w. unfold start. by rewrite Hstart.
  - intros env w r w' Hrun. unfold start in Hrun. rewrite Hstart in Hrun.
    pose proof (eval_frame_any arg env (start_epoch arg) true "test" w) as H.
    rewrite Hrun in H. destruct H as [Hf Hfiles]. split; [exact Hf|].
    intros e. destruct Hfiles as [->|[data ->]]; [done|].
    apply lookup_insert_ne, score_path_model_path.
  - intros env w loader Hl Hbs. unfold start. rewrite Hstart.
    destruct (eval_persists arg env (start_epoch arg) true "test" loader w Hl Hbs)
      as (w' & Hrun & _ & Hfs).
    by exists w'.
Qed.

(** [--phase test --start-epoch 3]: one evaluation of epoch index 3, and the
    score file [work/epoch4_test_score.pkl] is written. *)
Lemma start_test_phase_witness :
  phase arg_test = "test"
  ∧ start_calls arg_test = (Ok (), [CallEval 3 true ["test"]])
  ∧ ∃ w', start arg_test env_small world_ticking = (Ok (), w')
      ∧ files w' !! "work/epoch4_test_score.pkl" = Some "pickle"
      ∧ model w' = model world_ticking.
Proof.
  assert (H1 : phase arg_test = "test") by reflexivity.
  split; [exact H1|].
  destruct (start_test_phase arg_test H1) as (Hcalls & _ & Hframe & Hrun).
  split; [exact Hcalls|].
  destruct (Hrun env_small world_ticking loader_test eq_refl ltac:(discriminate))
    as (w' & Hw' & Hfs).
  exists w'. split; [exact Hw'|]. split.
  - rewrite Hfs. vm_compute. reflexivity.
  - apply (Hframe env_small world_ticking _ _ Hw').
Defined.
(** * The rest of the script *)

(** ** [str2bool] *)

Lemma lower_ascii_idemp (c : Ascii.ascii) :
  Str.lower_ascii (Str.lower_ascii c) = Str.lower_ascii c.
Proof. by destruct c as [[] [] [] [] [] [] [] []]. Qed.

Lemma lower_idemp (s : string) : Str.lower (Str.lower s) = Str.lower s.
Proof.
  induction s as [|c s IH]; [done|]. cbn [Str.lower].
  by rewrite lower_ascii_idemp, IH.
Qed.

Lemma lower_length (s : string) : String.length (Str.lower s) = String.length s.
Proof. induction s as [|c s IH]; [done|]. cbn. by rewrite IH. Qed.

(** X1. [str2bool] looks at its argument through [lower] only, so the case
    of the letters does not count; it returns [True] exactly for the five
    words of its first tuple and [False] exactly for the five of its second
    (no word is in both), and raises for anything else, among which the
    empty string and every string of more than five characters. *)
Theorem str2bool_accepts (v : string) :
  str2bool (Str.lower v) = str2bool v
  ∧ (str2bool v = Some true ↔ Str.lower v ∈ ["yes"; "true"; "t"; "y"; "1"])
  ∧ (str2bool v = Some false ↔ Str.lower v ∈ ["no"; "false"; "f"; "n"; "0"])
  ∧ (is_Some (str2bool v) → (1 ≤ String.length v ≤ 5)%nat).
Proof.
  split; [unfold str2bool; by rewrite lower_idemp|].
  assert (Hdisj : ∀ s : string, s ∈ ["yes"; "true"; "t"; "y"; "1"] →
                    s ∈ ["no"; "false"; "f"; "n"; "0"] → False).
  { intros s Ht Hf.
    repeat (apply elem_of_cons in Ht as [-> | Ht]); try (by apply elem_of_nil in Ht);
      repeat (apply elem_of_cons in Hf as [Hf | Hf]); try discriminate;
      by apply elem_of_nil in Hf. }
  unfold str2bool. split; [|split].
  - split; [repeat case_bool_decide; done|].
    intros ?. by rewrite bool_decide_eq_true_2.
  - split; [repeat case_bool_decide; done|].
    intros Hf. rewrite bool_decide_eq_false_2 by (intros Ht; by eapply Hdisj).
    by rewrite bool_decide_eq_true_2.
  - rewrite <- (lower_length v).
    repeat case_bool_decide; intros Hs; try (by destruct Hs);
      repeat match goal with
             | H : _ ∈ _ :: _ |- _ => apply elem_of_cons in H as [-> | H]
             | H : _ ∈ [] |- _ => by apply elem_of_nil in H
             end; vm_compute; lia.
Qed.

(** ** [import_class] *)

Lemma split_dot_no_dot (c : string) : Str.has_dot c = false → Str.split_dot c = (c, []).
Proof.
  induction c as [|a c IH]; [done|]. cbn [Str.has_dot Str.split_dot].
  intros [Ha Hc]%orb_false_elim. by rewrite (IH Hc), Ha.
Qed.

Lemma split_dot_cons (d : Ascii.ascii) (p c : string) :
  Str.has_dot (String d "") = true →
  Str.has_dot c = false →
  Str.split_dot (p +:+ String d c) = ((Str.split_dot p).1, (Str.split_dot p).2 ++ [c]).
Proof.
  intros Hd Hc. cbn [Str.has_dot] in Hd. rewrite orb_false_r in Hd.
  induction p as [|a p IH].
  - change (Str.split_dot (String d c) = ("", [c])).
    cbn [Str.split_dot]. by rewrite (split_dot_no_dot c Hc), Hd.
  - change (Str.split_dot (String a (p +:+ String d c))
            = ((Str.split_dot (String a p)).1, (Str.split_dot (String a p)).2 ++ [c])).
    cbn [Str.split_dot]. rewrite IH. destruct (Str.split_dot p) as [h t].
    by destruct (Ascii.eqb a _).
Qed.

Lemma split_dot_app (p c : string) :
  Str.has_dot c = false →
  Str.split_dot (p +:+ "." +:+ c) = ((Str.split_dot p).1, (Str.split_dot p).2 ++ [c]).
Proof. intros Hc. exact (split_dot_cons (Ascii.ascii_of_nat 46) p c eq_refl Hc). Qed.

(** X2. [import_class] follows a dotted name one component at a time: a
    name without a dot is what [__import__] returns for it, and the name
    [p.c] is the attribute [c] of what [import_class] returns for [p];
    whatever [__import__] or a [getattr] on the way raises is raised. *)
Theorem import_class_resolves {obj err : Type} (import_ : string → err + obj)
    (getattr_ : obj → string → err + obj) (p c : string) :
  Str.has_dot c = false →
  import_class import_ getattr_ c = import_ c
  ∧ import_class import_ getattr_ (p +:+ "." +:+ c)
    = match import_class import_ getattr_ p with
      | inr m => getattr_ m c
      | inl e => inl e
      end.
Proof.
  intros Hc. unfold import_class. split.
  - by rewrite (split_dot_no_dot c Hc).
  - rewrite (split_dot_app p c Hc). destruct (Str.split_dot p) as [h t]. cbn [fst snd].
    by rewrite fold_left_app.
Qed.

Lemma import_class_resolves_witness :
  Str.has_dot "Model" = false
  ∧ import_class import_path getattr_path ("net.st_gcn" +:+ "." +:+ "Model")
    = inr ["net"; "st_gcn"; "Model"].
Proof.
  split; [reflexivity|].
  pose proof (import_class_resolves import_path getattr_path "net.st_gcn" "Model" eq_refl)
    as [_ H].
  rewrite H. reflexivity.
Defined.

(** ** The command line and the configuration file *)

Lemma main_arg_checked {value : Type} (defaults given config : gmap string value) :
  dom config ⊆ dom defaults ∪ dom given →
  main_arg defaults given (Some config)
  = Started (parse_args (set_defaults config defaults) given).
Proof.
  intros Hsub. unfold main_arg.
  destruct (list_find _ _) as [[i k]|] eqn:Hfind; [|done].
  apply list_find_Some in Hfind as (Hk%list_elem_of_lookup_2 & Hwrong & _).
  apply elem_of_elements, Hsub in Hk. exfalso. apply Hwrong.
  unfold parse_args. rewrite dom_union_L.
  apply elem_of_union in Hk as [Hk|Hk]; apply elem_of_union; auto.
Qed.

Lemma main_arg_wrong {value : Type} (defaults given config : gmap string value)
    (k : string) :
  main_arg defaults given (Some config) = WrongArg k →
  k ∈ dom config ∧ (k ∉ dom defaults) ∧ (k ∉ dom given).
Proof.
  unfold main_arg.
  destruct (list_find _ _) as [[i k']|] eqn:Hfind; [|done].
  intros [= ->].
  apply list_find_Some in Hfind as (Hk%list_elem_of_lookup_2 & Hwrong & _).
  apply elem_of_elements in Hk. split; [exact Hk|].
  unfold parse_args in Hwrong. rewrite dom_union_L, not_elem_of_union in Hwrong.
  tauto.
Qed.

Lemma main_arg_started {value : Type} (defaults given config arg : gmap string value) :
  main_arg defaults given (Some config) = Started arg →
  dom config ⊆ dom defaults ∪ dom given.
Proof.
  intros Hrun k Hk.
  destruct (decide (k ∈ dom defaults ∪ dom given)) as [|Hout]; [done|].
  exfalso. revert Hrun. unfold main_arg.
  destruct (list_find _ _) as [[i k']|] eqn:Hfind; [done|]. intros ?.
  apply list_find_None in Hfind. rewrite Forall_forall in Hfind.
  apply (Hfind k); [by apply elem_of_elements|].
  unfold parse_args. rewrite dom_union_L.
  rewrite not_elem_of_union in Hout. rewrite not_elem_of_union. tauto.
Qed.

(** X3. The priority of the three sources of an option, as the comment of
    line 252 has it: when the script gets past the configuration file, each
    option holds what the command line gives for it, else what the
    configuration file gives, else its default; and the file has added no
    option. *)
Theorem main_arg_priority {value : Type} (defaults given config arg : gmap string value) :
  main_arg defaults given (Some config) = Started arg →
  dom arg = dom defaults ∪ dom given
  ∧ ∀ k, arg !! k
         = match given !! k with
           | Some v => Some v
           | None => match config !! k with
                     | Some v => Some v
                     | None => defaults !! k
                     end
           end.
Proof.
  intros Hrun. pose proof (main_arg_started _ _ _ _ Hrun) as Hsub.
  rewrite (main_arg_checked _ _ _ Hsub) in Hrun. injection Hrun as <-.
  unfold parse_args, set_defaults. split.
  - rewrite !dom_union_L. apply set_eq. intros k.
    specialize (Hsub k). rewrite !elem_of_union in *. tauto.
  - intros k. rewrite !lookup_union.
    by destruct (given !! k), (config !! k), (defaults !! k).
Qed.

Lemma main_arg_priority_witness :
  ∃ arg, main_arg defaults_small given_small (Some config_small) = Started arg
    ∧ arg !! "batch_size" = Some 64
    ∧ arg !! "num_epoch" = Some 50
    ∧ arg !! "device" = Some 0.
Proof.
  exists (parse_args (set_defaults config_small defaults_small) given_small).
  assert (Hrun : main_arg defaults_small given_small (Some config_small)
                 = Started (parse_args (set_defaults config_small defaults_small) given_small)).
  { vm_compute. reflexivity. }
  split; [exact Hrun|].
  destruct (main_arg_priority _ _ _ _ Hrun) as [_ Hk].
  rewrite !Hk. repeat split; vm_compute; reflexivity.
Defined.

(** X4. A key of the configuration file that is no option of the script
    stops it on the [assert] of line 305: this happens exactly when the file
    has such a key, and the key named in the line ['WRONG ARG: ...'] is one
    of them. *)
Theorem main_arg_wrong_key {value : Type} (defaults given config : gmap string value) :
  ((∃ k, main_arg defaults given (Some config) = WrongArg k)
   ↔ ¬ dom config ⊆ dom defaults ∪ dom given)
  ∧ ∀ k, main_arg defaults given (Some config) = WrongArg k →
         k ∈ dom config ∧ (k ∉ dom defaults) ∧ (k ∉ dom given).
Proof.
  split; [|apply main_arg_wrong]. split.
  - intros [k Hk] Hsub. by rewrite (main_arg_checked _ _ _ Hsub) in Hk.
  - intros Hnot. destruct (main_arg defaults given (Some config)) as [arg|k] eqn:Hrun;
      [|by exists k].
    exfalso. apply Hnot. by eapply main_arg_started.
Qed.

(** ** More on the reconciliation of a snapshot *)

(** X5. The model after [load_model], whether the method returns or raises:
    it has the tensors it had before and no other; a tensor whose name is in
    [ignore_weights], or for which the snapshot has no value, is as it was;
    and no tensor holds anything but its old value or the snapshot's value
    for its name. When the method returns, for a snapshot whose tensors fit
    the model's, every tensor the snapshot has a value for and that is not
    ignored holds that value. *)
Theorem load_model_result (ignore : list string) (p : string)
    (own snapshot : state_dict) :
  p ≠ "" →
  dom (load_model ignore (Some p) own snapshot).1.1 = dom own
  ∧ (∀ k, k ∈ ignore ∨ snapshot !! k = None →
          (load_model ignore (Some p) own snapshot).1.1 !! k = own !! k)
  ∧ (∀ k v, (load_model ignore (Some p) own snapshot).1.1 !! k = Some v →
            own !! k = Some v ∨ ((k ∉ ignore) ∧ snapshot !! k = Some v))
  ∧ (sizes_fit own snapshot →
     (load_model ignore (Some p) own snapshot).2 = Ok () →
     ∀ k v, k ∉ ignore → is_Some (own !! k) → snapshot !! k = Some v →
            (load_model ignore (Some p) own snapshot).1.1 !! k = Some v).
Proof.
  intros Hp.
  pose proof (λ k, load_model_lookup ignore p own snapshot k Hp) as Hk.
  split; [|split; [|split]].
  - apply set_eq. intros k. rewrite !elem_of_dom, Hk.
    destruct (own !! k); [split; eauto | split; intros []; done].
  - intros k Hcase. rewrite Hk. destruct (own !! k) as [v0|]; [|done].
    case_decide; [done|]. destruct Hcase as [? | ->]; done.
  - intros k v. rewrite Hk. destruct (own !! k) as [v0|]; [|done].
    case_decide; [intros [= <-]; by left|].
    destruct (snapshot !! k) as [v1|]; cbn; intros [= <-]; [by right | by left].
  - intros _ _ k v Hni [v0 Ho] Hs. rewrite Hk, Ho, Hs. by rewrite decide_False.
Qed.

Lemma load_model_result_witness :
  "w.pkl" ≠ ""
  ∧ sizes_fit own_two snapshot_partial
  ∧ (load_model [] (Some "w.pkl") own_two snapshot_partial).2 = Ok ()
  ∧ (load_model [] (Some "w.pkl") own_two snapshot_partial).1.1 !! "fc.weight"
    = Some [2%Q]
  ∧ (load_model [] (Some "w.pkl") own_two snapshot_partial).1.1 !! "fc.bias"
    = Some [0%Q].
Proof.
  assert (Hp : "w.pkl" ≠ "") by discriminate.
  assert (Hfit : sizes_fit own_two snapshot_partial).
  { intros k v v0 Hk Ho. unfold snapshot_partial in Hk.
    apply lookup_singleton_Some in Hk as [<- <-].
    vm_compute in Ho. by injection Ho as <-. }
  assert (Hok : (load_model [] (Some "w.pkl") own_two snapshot_partial).2 = Ok ())
    by (vm_compute; reflexivity).
  destruct (load_model_result [] "w.pkl" own_two snapshot_partial Hp)
    as (_ & Hkeep & _ & Hload).
  split; [exact Hp|]. split; [exact Hfit|]. split; [exact Hok|]. split.
  - apply (Hload Hfit Hok); [by intros ?%elem_of_nil | eexists; reflexivity | reflexivity].
  - rewrite Hkeep; [reflexivity | by right].
Defined.

(** X6. A snapshot with exactly the names of the model and tensors that
    fit, such as a checkpoint that [train] wrote from the same network,
    loads without a warning: the model becomes the snapshot, the only line
    printed is the one that names the file, and loading the same snapshot
    again changes nothing. *)
Theorem load_model_same_keys (p : string) (own snapshot : state_dict) :
  p ≠ "" →
  dom snapshot = dom own →
  sizes_fit own snapshot →
  load_model [] (Some p) own snapshot
  = (snapshot, ["Load weights from " +:+ p +:+ "."], Ok ())
  ∧ load_model [] (Some p) snapshot snapshot
    = (snapshot, ["Load weights from " +:+ p +:+ "."], Ok ()).
Proof.
  intros Hp Hd _. unfold load_model. rewrite bool_decide_eq_false_2 by done.
  unfold remove_ignored. cbn [fold_left].
  by rewrite (reconcile_same_keys own snapshot Hd), (reconcile_same_keys snapshot snapshot).
Qed.

Lemma load_model_same_keys_witness :
  "w.pkl" ≠ ""
  ∧ dom snapshot_partial = dom own_small
  ∧ sizes_fit own_small snapshot_partial
  ∧ load_model [] (Some "w.pkl") own_small snapshot_partial
    = (snapshot_partial, ["Load weights from w.pkl."], Ok ()).
Proof.
  assert (Hp : "w.pkl" ≠ "") by discriminate.
  assert (Hd : dom snapshot_partial = dom own_small) by (vm_compute; reflexivity).
  assert (Hfit : sizes_fit own_small snapshot_partial).
  { intros k v v0 Hk Ho. unfold snapshot_partial in Hk. unfold own_small in Ho.
    apply lookup_singleton_Some in Hk as [<- <-].
    by apply lookup_singleton_Some in Ho as [_ <-]. }
  split; [exact Hp|]. split; [exact Hd|]. split; [exact Hfit|].
  exact (proj1 (load_model_same_keys "w.pkl" own_small snapshot_partial Hp Hd Hfit)).
Defined.

(** ** Building the processor *)

Lemma for_print_plain (ls : list string) (w : World) :
  for_ ls (λ s, print (Plain s)) w
  = (Ok (), set_stdout (stdout w ++ (Plain <$> ls)) w).
Proof.
  revert w. induction ls as [|l ls IH]; intros w.
  - cbn. rewrite app_nil_r. by destruct w.
  - cbn [for_]. unfold mbind, Exec_bind, print at 1, modify. rewrite IH.
    cbn. by rewrite <- app_assoc.
Qed.

Lemma init_eq (arg : Arg) (yaml : string) (own snapshot : state_dict) (w : World) :
  init arg yaml own snapshot w
  = let '(m, printed, r) := load_model (ignore_weights arg) (weights arg) own snapshot in
    let w1 := set_stdout (stdout w ++ (Plain <$> printed)) (set_model m w) in
    match r, load_optimizer arg with
    | Raise e, _ => (Raise e, w1)
    | Ok _, Raise e => (Raise e, w1)
    | Ok _, Ok groups =>
        (Ok (), set_files (<[arg_path arg := yaml]> (files w)) (set_param_groups groups w1))
    end.
Proof.
  unfold init. destruct (load_model _ _ _ _) as [[m printed] r].
  unfold mbind, Exec_bind, modify at 1. rewrite for_print_plain.
  destruct r as [[]|e]; [|done]. unfold lift at 1.
  destruct (load_optimizer arg) as [groups|e]; [|done].
  unfold lift, modify, save_arg, modify. by rewrite pickle_dump_complete.
Qed.

Lemma load_state_dict_exn (own sd : state_dict) (e : exn) :
  (load_state_dict own sd).2 = Raise e →
  ∃ unexpected missing, e = KeyMismatch unexpected missing.
Proof.
  unfold load_state_dict. cbn [snd].
  destruct (elements (dom sd ∖ dom own)), (elements (dom own ∖ dom sd));
    intros ?; simplify_eq; eauto.
Qed.

Lemma load_model_exn (ignore : list string) (path : option string)
    (own snapshot : state_dict) (e : exn) :
  (load_model ignore path own snapshot).2 = Raise e →
  ∃ unexpected missing, e = KeyMismatch unexpected missing.
Proof.
  unfold load_model. destruct path as [p|]; [|done].
  case_bool_decide; [done|].
  destruct (remove_ignored _ _) as [ws removed]. unfold reconcile.
  destruct (load_state_dict own ws) as [own' [[]|e1]]; [done|].
  pose proof (load_state_dict_exn own' (Py.update own' ws) e) as Hsecond.
  destruct (load_state_dict own' (Py.update own' ws)) as [own'' r]. exact Hsecond.
Qed.

(** X7. [Processor.__init__], whatever it does: the lines of [load_model]
    go to the terminal and never to [log.txt]; when it returns, the options
    have been written to [arg.yaml] in the work directory and no other file
    was touched, the optimizer is one of the two supported ones and has one
    parameter group at [base_lr]; when it raises (on the keys of the
    snapshot or on the name of the optimizer) no file has been written. *)
Theorem init_outcome (arg : Arg) (yaml : string) (own snapshot : state_dict)
    (w w' : World) (r : result unit) :
  init arg yaml own snapshot w = (r, w') →
  stdout w'
  = stdout w
    ++ (Plain <$> (load_model (ignore_weights arg) (weights arg) own snapshot).1.2)
  ∧ log_txt w' = log_txt w
  ∧ match r with
    | Ok _ =>
        files w' = <[arg_path arg := yaml]> (files w)
        ∧ param_groups w' = [base_lr arg]
        ∧ (optimizer arg = "SGD" ∨ optimizer arg = "Adam")
        ∧ (load_model (ignore_weights arg) (weights arg) own snapshot).2 = Ok ()
    | Raise e =>
        files w' = files w
        ∧ (e = ValueError ∨ ∃ unexpected missing, e = KeyMismatch unexpected missing)
    end.
Proof.
  rewrite init_eq.
  destruct (load_model _ _ _ _) as [[m printed] r0] eqn:Hload. cbn zeta. cbn [fst snd].
  destruct r0 as [[]|e0].
  - destruct (load_optimizer arg) as [groups|e] eqn:Hopt.
    + intros [= <- <-]. apply load_optimizer_ok in Hopt as [Ho ->]. by cbn.
    + intros [= <- <-]. cbn. repeat split. left.
      revert Hopt. unfold load_optimizer. repeat case_bool_decide; congruence.
  - intros [= <- <-]. cbn. repeat split. right.
    apply (load_model_exn (ignore_weights arg) (weights arg) own snapshot).
    by rewrite Hload.
Qed.

Lemma init_outcome_witness :
  ∃ w', init arg_default "yaml" own_small ∅ world_ticking = (Ok (), w')
    ∧ files w' !! "work/arg.yaml" = Some "yaml"
    ∧ param_groups w' = [(1 # 100)%Q]
    ∧ log_txt w' = [].
Proof.
  destruct (init arg_default "yaml" own_small ∅ world_ticking) as [r w'] eqn:Hrun.
  pose proof (init_outcome _ _ _ _ _ _ _ Hrun) as (_ & Hlog & Hr).
  rewrite init_eq in Hrun. vm_compute in Hrun.
  injection Hrun as <- Hw. exists w'. split; [reflexivity|].
  destruct Hr as (Hf & Hg & _). rewrite Hf, Hg, Hlog. repeat split.
Defined.

(** ** More on the learning rate *)

Lemma boundaries_reached_perm (e : Z) (steps steps' : list Z) :
  steps ≡ₚ steps' → boundaries_reached e steps = boundaries_reached e steps'.
Proof. intros Hp. unfold boundaries_reached. by rewrite Hp. Qed.

Lemma boundaries_reached_between (e1 e2 : Z) (steps : list Z) :
  e1 ≤ e2 → (∀ s, s ∈ steps → ¬ (e1 < s ≤ e2)) →
  boundaries_reached e1 steps = boundaries_reached e2 steps.
Proof.
  intros He Hnone. unfold boundaries_reached. f_equal.
  induction steps as [|s steps IH]; [done|].
  assert (Hs : ¬ (e1 < s ≤ e2)) by (apply Hnone; left).
  assert (IH' := IH (λ s' Hs', Hnone s' (list_elem_of_further _ _ _ Hs'))).
  rewrite !filter_cons. repeat case_decide; cbn; lia.
Qed.

Lemma boundaries_reached_none (e : Z) (steps : list Z) :
  (∀ s, s ∈ steps → e < s) → boundaries_reached e steps = 0.
Proof.
  intros Hlt. unfold boundaries_reached.
  induction steps as [|s steps IH]; [done|].
  assert (Hs : e < s) by (apply Hlt; left).
  rewrite filter_cons, decide_False by lia.
  apply IH. intros s' Hs'. apply Hlt. by right.
Qed.

(** X8. The rate of an epoch does not depend on the order in which the
    values of [--step] are given: only on how many of them the epoch has
    reached. *)
Theorem learning_rate_any_order (lr0 : Q) (e : Z) (steps steps' : list Z) :
  steps ≡ₚ steps' → learning_rate lr0 e steps = learning_rate lr0 e steps'.
Proof.
  intros Hp. rewrite !learning_rate_boundaries. by rewrite (boundaries_reached_perm e _ _ Hp).
Qed.

Lemma learning_rate_any_order_witness :
  [60; 20; 40] ≡ₚ [20; 40; 60]
  ∧ learning_rate (1 # 100) 45 [60; 20; 40] = ((1 # 100) * (1 # 10) ^ 2)%Q.
Proof.
  assert (Hp : [60; 20; 40] ≡ₚ [20; 40; 60]).
  { etrans; [apply Permutation_swap|]. apply Permutation_skip, Permutation_swap. }
  split; [exact Hp|].
  rewrite (learning_rate_any_order (1 # 100) 45 _ _ Hp). reflexivity.
Defined.

(** X9. Between two boundaries the rate stands still: two epochs with no
    value of [--step] above the first and at or below the second have the
    very same rate, and an epoch below every value of [--step] has the rate
    [base_lr]. *)
Theorem learning_rate_between_boundaries (lr0 : Q) (e1 e2 : Z) (steps : list Z) :
  e1 ≤ e2 →
  (∀ s, s ∈ steps → ¬ (e1 < s ≤ e2)) →
  learning_rate lr0 e1 steps = learning_rate lr0 e2 steps
  ∧ ((∀ s, s ∈ steps → e2 < s) → (learning_rate lr0 e1 steps == lr0)%Q).
Proof.
  intros He Hnone. rewrite !learning_rate_boundaries.
  rewrite (boundaries_reached_between e1 e2 steps He Hnone). split; [done|].
  intros Hlt. rewrite (boundaries_reached_none e2 steps Hlt). cbn. ring.
Qed.

Lemma learning_rate_between_boundaries_witness :
  learning_rate (1 # 100) 20 [20; 40; 60] = learning_rate (1 # 100) 39 [20; 40; 60]
  ∧ learning_rate (1 # 100) 40 [20; 40; 60] ≠ learning_rate (1 # 100) 39 [20; 40; 60].
Proof.
  split; [|vm_compute; discriminate].
  apply (learning_rate_between_boundaries (1 # 100) 20 39 [20; 40; 60]); [lia|].
  intros s Hs. repeat (apply elem_of_cons in Hs as [-> | Hs]); try lia.
  by apply elem_of_nil in Hs.
Defined.

(** * Properties of whole runs *)

(** [print_log], computed. *)
Lemma print_log_eq (arg : Arg) (m : msg) (w : World) :
  print_log arg m w
  = (Ok (),
     let l := Stamped (now w (ticks w)) m in
     let w1 := set_stdout (stdout w ++ [l]) (set_ticks (S (ticks w)) w) in
     if arg_print_log arg then set_log_txt (log_txt w ++ [l]) w1 else w1).
Proof.
  unfold print_log, mbind, Exec_bind, print, modify. cbn.
  by destruct (arg_print_log arg).
Qed.

(** ** What every step of a run keeps *)

Section Walk.

(** A property of the world that the steps of [train] and [eval] keep: it
    survives a reading of the clock, and does not look at the timer, the
    parameters or the parameter groups; it survives the write of a
    checkpoint or of a score file (the paths in [written]), and [print_log]
    keeps it. *)
Variable arg : Arg.
Variable I : World → Prop.
Variable written : string → Prop.
Hypothesis written_model : ∀ epoch, written (model_path arg epoch).
Hypothesis written_score : ∀ epoch ln, written (score_path arg epoch ln).
Hypothesis I_ticks : ∀ n s, (ticks s <= n)%nat → I s → I (set_ticks n s).
Hypothesis I_cur_time : ∀ t s, I s → I (set_cur_time t s).
Hypothesis I_model : ∀ m s, I s → I (set_model m s).
Hypothesis I_param_groups : ∀ g s, I s → I (set_param_groups g s).
Hypothesis I_files :
  ∀ path data s, written path → I s → I (set_files (<[path := data]> (files s)) s).
Hypothesis I_print_log : ∀ m E, triple I (print_log arg m) (λ _, I) E.

Lemma walk_split_time E : triple I split_time (λ _, I) E.
Proof. intros w Hw. rewrite split_time_eq. apply I_cur_time, I_ticks; [lia|done]. Qed.

Lemma walk_record_time E : triple I record_time (λ _, I) E.
Proof. intros w Hw. rewrite record_time_eq. apply I_cur_time, I_ticks; [lia|done]. Qed.

Lemma walk_pickle_dump (path data : string) E :
  written path → triple I (pickle_dump path data) (λ _, I) E.
Proof.
  intros Hpath. unfold pickle_dump. apply triple_modify. intros s Hs.
  rewrite pickle_dump_complete. by apply I_files.
Qed.

Lemma walk_get_loader (env : Env) (ln : string) :
  triple I (get_loader env ln) (λ _, I) (λ _, I).
Proof.
  unfold get_loader. destruct (data_loader env !! ln);
    [by apply triple_ret | by apply triple_lift].
Qed.

Lemma walk_train_batch (env : Env) (lr : Q) (n i : Z) (b : batch)
    (acc : Timer * list Q) :
  triple I (train_batch arg env lr n i b acc) (λ _, I) (λ _, I).
Proof.
  unfold train_batch. destruct acc as [timer losses].
  eapply triple_bind; [apply walk_split_time|]. intros d1.
  keep I; [by apply triple_get|]. intros w1.
  destruct (train_step env (model w1) (param_groups w1) b) as [m loss].
  keep I; [apply triple_modify; intros s Hs; by apply I_model|]. intros ?.
  eapply triple_bind; [apply walk_split_time|]. intros d2.
  keep I.
  { apply triple_lift. intros s Hs. by destruct (Py.mod_ i (log_interval arg)). }
  intros r.
  keep I.
  { destruct (r =? 0); [apply I_print_log | by apply triple_ret]. }
  intros ?.
  eapply triple_bind; [apply walk_split_time|]. intros d3.
  by apply triple_ret.
Qed.

Lemma walk_train_loop (env : Env) (lr : Q) (n : Z) (bs : list batch) (i : Z)
    (acc : Timer * list Q) :
  triple I (train_loop arg env lr n i bs acc) (λ _, I) (λ _, I).
Proof.
  revert i acc. induction bs as [|b bs IH]; intros i acc.
  - by apply triple_ret.
  - cbn [train_loop]. eapply triple_bind; [apply walk_train_batch|].
    intros acc'. apply IH.
Qed.

Lemma walk_train_batches (env : Env) (epoch : Z) :
  triple I (train_batches arg env epoch) (λ _, I) (λ _, I).
Proof.
  unfold train_batches.
  eapply triple_bind; [apply I_print_log|]. intros ?.
  eapply triple_bind; [apply walk_get_loader|]. intros loader.
  keep I; [by apply triple_get|]. intros w1.
  keep I.
  { apply triple_lift. intros s Hs. by destruct (adjust_learning_rate _ _ _). }
  intros [lr groups].
  keep I; [apply triple_modify; intros s Hs; by apply I_param_groups|]. intros ?.
  eapply triple_bind; [apply walk_record_time|]. intros ?.
  apply walk_train_loop.
Qed.

Lemma walk_train (env : Env) (epoch : Z) (save_model : bool) :
  triple I (train arg env epoch save_model) (λ _, I) (λ _, I).
Proof.
  unfold train.
  eapply triple_bind; [apply walk_train_batches|]. intros [timer loss_value].
  keep I.
  { apply triple_lift. intros s Hs. by destruct (proportion timer). }
  intros p.
  eapply triple_bind; [apply I_print_log|]. intros ?.
  eapply triple_bind; [apply I_print_log|]. intros ?.
  destruct save_model; [|by apply triple_ret].
  unfold save_checkpoint.
  keep I; [by apply triple_get|]. intros w1.
  eapply triple_bind; [apply walk_pickle_dump, written_model|]. intros ?.
  apply I_print_log.
Qed.

Lemma walk_eval_split (env : Env) (epoch : Z) (save_score : bool) (ln : string) :
  triple I (eval_split arg env epoch save_score ln) (λ _, I) (λ _, I).
Proof.
  unfold eval_split.
  eapply triple_bind; [apply walk_get_loader|]. intros loader.
  keep I; [by apply triple_get|]. intros w1.
  destruct (eval_batches env (model w1) (batches loader epoch)) as [score_frag loss_value].
  keep I.
  { apply triple_lift. intros s Hs. by destruct (Np.concatenate score_frag). }
  intros score.
  eapply triple_bind; [apply I_print_log|]. intros ?.
  keep I.
  { apply triple_for. intros k _. apply I_print_log. }
  intros ?.
  destruct save_score; [apply walk_pickle_dump, written_score | by apply triple_ret].
Qed.

Lemma walk_eval (env : Env) (epoch : Z) (save_score : bool) (loader_name : list string) :
  triple I (eval arg env epoch save_score loader_name) (λ _, I) (λ _, I).
Proof.
  unfold eval.
  eapply triple_bind; [apply I_print_log|]. intros ?.
  apply triple_for. intros ln _. apply walk_eval_split.
Qed.

Lemma walk_run_calls (env : Env) (cs : list call) :
  triple I (run_calls (train arg env) (eval arg env) cs) (λ _, I) (λ _, I).
Proof.
  unfold run_calls. apply triple_for. intros c _.
  destruct c; [apply walk_train | apply walk_eval].
Qed.

Lemma walk_start (env : Env) : triple I (start arg env) (λ _, I) (λ _, I).
Proof.
  unfold start, start_with.
  case_bool_decide; [|case_bool_decide; [apply walk_eval | by apply triple_ret]].
  apply triple_for. intros epoch _. unfold start_epoch_body.
  keep I.
  { apply triple_lift. intros s Hs. by destruct (Py.mod_ _ _). }
  intros r1.
  keep I.
  { apply triple_lift. intros s Hs. by destruct (Py.mod_ _ _). }
  intros r2.
  eapply triple_bind; [apply walk_train|]. intros ?.
  destruct ((r2 =? 0) || (epoch + 1 =? num_epoch arg));
    [apply walk_eval | by apply triple_ret].
Qed.

End Walk.

(** ** The log file *)

Lemma log_mirror_refl (arg : Arg) (w : World) : log_mirror arg w w.
Proof.
  exists []. split; [by rewrite app_nil_r|].
  destruct (arg_print_log arg); by rewrite app_nil_r.
Qed.

Lemma log_mirror_print_log (arg : Arg) (w0 : World) (m : msg) E :
  triple (log_mirror arg w0) (print_log arg m) (λ _, log_mirror arg w0) E.
Proof.
  intros w (new & Hout & Hlog). unfold log_mirror.
  unfold print_log, mbind, Exec_bind, print, modify.
  cbn. destruct (arg_print_log arg); cbn;
    exists (new ++ [Stamped (now w (ticks w)) m]);
    rewrite Hout, ?Hlog, <- ?app_assoc; done.
Qed.

(** X10. Every line that [train] and [eval] print during [start] goes
    through [print_log]: whatever the run does, and also when it raises, the
    lines appended to [log.txt] are exactly the lines printed with
    [--print-log], and [log.txt] is left alone without it. *)
Theorem start_log_mirrors_stdout (arg : Arg) (env : Env) (w : World) :
  ∃ new : list line,
    stdout (start arg env w).2 = stdout w ++ new
    ∧ log_txt (start arg env w).2
      = log_txt w ++ (if arg_print_log arg then new else []).
Proof.
  assert (Hrun : triple (log_mirror arg w) (start arg env)
                   (λ _, log_mirror arg w) (λ _, log_mirror arg w)).
  { apply (walk_start arg (log_mirror arg w) (λ _, True)); try done.
    intros m E. apply log_mirror_print_log. }
  specialize (Hrun w (log_mirror_refl arg w)).
  by destruct (start arg env w) as [[[]|e] w'].
Qed.

(** ** The time stamps of the log *)

Lemma stamps_app (ls ls' : list line) : stamps (ls ++ ls') = stamps ls ++ stamps ls'.
Proof. unfold stamps. apply omap_app. Qed.

Lemma stamps_ordered_snoc (ts : list Q) (t : Q) :
  stamps_ordered ts → (∀ t', t' ∈ ts → (t' <= t)%Q) → stamps_ordered (ts ++ [t]).
Proof.
  intros Hord Hle i j ti tj Hij Hi Hj.
  destruct (decide (j < length ts)%nat) as [Hlt|Hge].
  - rewrite lookup_app_l in Hi, Hj by lia. exact (Hord i j ti tj Hij Hi Hj).
  - assert (j = length ts) as ->.
    { apply lookup_lt_Some in Hj. rewrite length_app in Hj. cbn in Hj. lia. }
    rewrite lookup_app_r, Nat.sub_diag in Hj by lia. injection Hj as <-.
    destruct (decide (i < length ts)%nat) as [Hlt|Hge'].
    + rewrite lookup_app_l in Hi by lia. apply Hle. by eapply list_elem_of_lookup_2.
    + assert (i = length ts) as -> by lia.
      rewrite lookup_app_r, Nat.sub_diag in Hi by lia. injection Hi as <-. apply Qle_refl.
Qed.

(** X11. With a clock that does not run backwards, the time stamps of the
    lines that a run of [start] prints, read from top to bottom, never
    decrease; this also holds for a run that raises. *)
Theorem start_stamps_ordered (arg : Arg) (env : Env) (w : World) :
  clock_steady w →
  ∃ new : list line,
    stdout (start arg env w).2 = stdout w ++ new ∧ stamps_ordered (stamps new).
Proof.
  intros Hsteady.
  set (I := λ s : World,
         clock_steady s
         ∧ ∃ new, stdout s = stdout w ++ new
             ∧ stamps_ordered (stamps new)
             ∧ ∀ t, t ∈ stamps new → ∀ k, (ticks s <= k)%nat → (t <= now s k)%Q).
  assert (Hrun : triple I (start arg env) (λ _, I) (λ _, I)).
  { apply (walk_start arg I (λ _, True)); try done.
    - intros n s Hn (Hs & new & Hout & Hord & Hle). split; [exact Hs|].
      exists new. repeat split; try done. cbn. intros t Ht k Hk. apply Hle; [done|lia].
    - intros m E s (Hs & new & Hout & Hord & Hle). rewrite print_log_eq. cbn zeta.
      assert (I (set_stdout (stdout s ++ [Stamped (now s (ticks s)) m])
                   (set_ticks (S (ticks s)) s))) as HI.
      { split; [exact Hs|]. exists (new ++ [Stamped (now s (ticks s)) m]).
        cbn. rewrite Hout, <- app_assoc. split; [done|].
        rewrite stamps_app. cbn. split.
        - apply stamps_ordered_snoc; [done|]. intros t Ht. by apply Hle.
        - intros t [Ht| ->%list_elem_of_singleton]%elem_of_app k Hk.
          + apply Hle; [done|lia].
          + apply Hs. lia. }
      by destruct (arg_print_log arg). }
  assert (HI : I w).
  { split; [exact Hsteady|]. exists []. rewrite app_nil_r. split; [done|].
    split; [by intros [|i] j ti tj ? ?|]. by intros t Ht%elem_of_nil. }
  specialize (Hrun w HI).
  destruct (start arg env w) as [[[]|e] w']; cbn [snd];
    destruct Hrun as (_ & new & Hout & Hord & _); by exists new.
Qed.

Lemma start_stamps_ordered_witness :
  clock_steady world_ticking
  ∧ ∃ new : list line,
      stdout (start arg_test env_small world_ticking).2 = stdout world_ticking ++ new
      ∧ stamps_ordered (stamps new)
      ∧ stamps new = [0; 1; 2; 3]%Q.
Proof.
  assert (Hsteady : clock_steady world_ticking).
  { intros i j Hij. cbn. rewrite <- Zle_Qle. lia. }
  split; [exact Hsteady|].
  destruct (start_stamps_ordered arg_test env_small world_ticking Hsteady)
    as (new & Hout & Hord).
  exists new. split; [exact Hout|]. split; [exact Hord|].
  assert (Hrun : stdout (start arg_test env_small world_ticking).2
                 = [Stamped 0 (EvalEpoch 4); Stamped 1 (MeanLoss "test" 1 (Some 1%Q));
                    Stamped 2 (TopK 1 100); Stamped 3 (TopK 5 100)])
    by (vm_compute; reflexivity).
  rewrite Hrun in Hout. cbn in Hout. by subst new.
Defined.

(** ** More on one epoch of training *)

(** *** The time the buckets account for *)

Lemma elapsed_split_time (c0 a : Q) E :
  triple (λ s, clock_inv s ∧ (a <= cur_time s - c0)%Q) split_time
    (λ d s, clock_inv s ∧ (a + d <= cur_time s - c0)%Q) E.
Proof.
  intros w [[Hs Hc] Ha]. rewrite split_time_eq. cbn. split.
  - split; [exact Hs|]. cbn. intros j Hj. apply Hs. lia.
  - pose proof (Hs (ticks w) (S (ticks w)) (Nat.le_succ_diag_r _)). lra.
Qed.

Lemma elapsed_print_log (arg : Arg) (m : msg) (c0 a : Q) E :
  triple (λ s, clock_inv s ∧ (a <= cur_time s - c0)%Q) (print_log arg m)
    (λ _ s, clock_inv s ∧ (a <= cur_time s - c0)%Q) E.
Proof.
  intros w [[Hs Hc] Ha]. unfold print_log, mbind, Exec_bind, print, modify.
  cbn. destruct (arg_print_log arg); cbn; (split; [|exact Ha]);
    (split; [exact Hs|]); cbn; intros j Hj; apply Hc; lia.
Qed.

Lemma elapsed_train_batch (arg : Arg) (env : Env) (lr : Q) (n i : Z) (b : batch)
    (timer : Timer) (losses : list Q) (c0 a : Q) :
  triple (λ s, clock_inv s ∧ (a <= cur_time s - c0)%Q)
    (train_batch arg env lr n i b (timer, losses))
    (λ acc s, clock_inv s
              ∧ (a + (timer_total acc.1 - timer_total timer) <= cur_time s - c0)%Q)
    (λ _ _, True).
Proof.
  unfold train_batch.
  eapply triple_bind; [apply elapsed_split_time|]. intros d1.
  eapply triple_bind; [apply (triple_get _ (λ _ s, clock_inv s ∧ (a + d1 <= cur_time s - c0)%Q)); auto|].
  intros w1.
  destruct (train_step env (model w1) (param_groups w1) b) as [m loss].
  eapply triple_bind;
    [apply (triple_modify _ _ (λ _ s, clock_inv s ∧ (a + d1 <= cur_time s - c0)%Q)); auto|].
  intros ?.
  eapply triple_bind; [apply elapsed_split_time|]. intros d2.
  keep (λ s, clock_inv s ∧ (a + d1 + d2 <= cur_time s - c0)%Q).
  { apply triple_lift. intros s Hs. by destruct (Py.mod_ i (log_interval arg)). }
  intros r.
  keep (λ s, clock_inv s ∧ (a + d1 + d2 <= cur_time s - c0)%Q).
  { destruct (r =? 0); [apply elapsed_print_log | by apply triple_ret]. }
  intros ?.
  eapply triple_bind; [apply elapsed_split_time|]. intros d3.
  apply triple_ret. intros s [Hs Ha]. split; [exact Hs|].
  cbn [fst]. rewrite !timer_total_eq. cbn. lra.
Qed.

Lemma elapsed_train_loop (arg : Arg) (env : Env) (lr : Q) (n : Z) (bs : list batch)
    (i : Z) (timer : Timer) (losses : list Q) (c0 a : Q) :
  triple (λ s, clock_inv s ∧ (a <= cur_time s - c0)%Q)
    (train_loop arg env lr n i bs (timer, losses))
    (λ acc s, clock_inv s
              ∧ (a + (timer_total acc.1 - timer_total timer) <= cur_time s - c0)%Q)
    (λ _ _, True).
Proof.
  revert i timer losses a. induction bs as [|b bs IH]; intros i timer losses a.
  - apply triple_ret. intros s [Hs Ha]. split; [exact Hs|]. cbn [fst]. lra.
  - cbn [train_loop]. eapply triple_bind; [apply elapsed_train_batch|].
    intros [timer' losses']. cbn [fst].
    eapply triple_weaken;
      [apply (IH (i + 1) timer' losses' (a + (timer_total timer' - timer_total timer))%Q)
      | auto | | auto].
    intros acc s [Hs Ha]. split; [exact Hs|]. cbn [fst] in *. lra.
Qed.

(** X12. With a clock that does not run backwards, the three buckets of
    [train] never account for more time than has passed: what the loop over
    the batches has added to them lies between zero and the time from the
    reading of [record_time] before the loop (the second reading of the
    epoch; the first one stamps the line ['Training epoch']) to the last
    reading kept in [cur_time]. Each [split_time] reads the clock twice,
    and the time between its two readings goes to no bucket. *)
Theorem timer_within_elapsed (arg : Arg) (env : Env) (epoch : Z) (w w' : World)
    (timer : Timer) (loss_value : list Q) :
  clock_steady w →
  train_batches arg env epoch w = (Ok (timer, loss_value), w') →
  (0 <= timer_total timer - timer_total timer_seed)%Q
  ∧ (timer_total timer - timer_total timer_seed
     <= cur_time w' - now w (S (ticks w)))%Q.
Proof.
  intros Hsteady Hrun. split.
  { pose proof (train_batches_timer arg env epoch w Hsteady) as Hle.
    rewrite Hrun in Hle. cbn [fst] in Hle. destruct Hle as (H1 & H2 & H3).
    rewrite !timer_total_eq. lra. }
  set (c0 := now w (S (ticks w))).
  assert (Htriple :
    triple (λ s, clock_steady s ∧ now s = now w ∧ ticks s = ticks w)
      (train_batches arg env epoch)
      (λ acc s, clock_inv s
                ∧ (0 + (timer_total acc.1 - timer_total timer_seed) <= cur_time s - c0)%Q)
      (λ _ _, True)).
  { unfold train_batches.
    eapply (triple_bind _ _ _
              (λ _ s, clock_steady s ∧ now s = now w ∧ ticks s = S (ticks w))).
    { intros s (Hs & Hn & Ht). unfold print_log, mbind, Exec_bind, print, modify.
      cbn. destruct (arg_print_log arg); cbn; rewrite Ht; auto. }
    intros ?.
    keep (λ s, clock_steady s ∧ now s = now w ∧ ticks s = S (ticks w)).
    { unfold get_loader. destruct (data_loader env !! "train");
        [by apply triple_ret | by apply triple_lift]. }
    intros loader.
    keep (λ s, clock_steady s ∧ now s = now w ∧ ticks s = S (ticks w));
      [by apply triple_get|].
    intros w1.
    keep (λ s, clock_steady s ∧ now s = now w ∧ ticks s = S (ticks w)).
    { apply triple_lift. intros s Hs. by destruct (adjust_learning_rate _ _ _). }
    intros [lr groups].
    keep (λ s, clock_steady s ∧ now s = now w ∧ ticks s = S (ticks w));
      [by apply triple_modify|].
    intros ?.
    keep (λ s, clock_inv s ∧ (0 <= cur_time s - c0)%Q).
    { intros s (Hs & Hn & Ht). rewrite record_time_eq. split.
      - split; [exact Hs|]. cbn. intros j Hj. apply Hs. lia.
      - cbn. rewrite Hn, Ht. unfold c0. lra. }
    intros ?. apply elapsed_train_loop. }
  pose proof (triple_ok _ _ _ _ _ _ _ Htriple (conj Hsteady (conj eq_refl eq_refl)) Hrun)
    as [_ Hle].
  cbn [fst] in Hle. lra.
Qed.

Lemma timer_within_elapsed_witness :
  ∃ timer loss_value w',
    train_batches arg_default env_small 0 world_ticking = (Ok (timer, loss_value), w')
    ∧ clock_steady world_ticking
    ∧ (timer_total timer - timer_total timer_seed == 4)%Q
    ∧ (cur_time w' - now world_ticking 1 == 7)%Q
    ∧ (timer_total timer - timer_total timer_seed
       <= cur_time w' - now world_ticking 1)%Q.
Proof.
  assert (Hsteady : clock_steady world_ticking).
  { intros i j Hij. cbn. rewrite <- Zle_Qle. lia. }
  destruct (train_batches arg_default env_small 0 world_ticking) as [[[timer losses]|e] w']
    eqn:Hrun; vm_compute in Hrun; [|discriminate].
  injection Hrun as <- <- <-.
  eexists _, _, _. split; [reflexivity|]. split; [exact Hsteady|].
  split; [reflexivity|]. split; [reflexivity|].
  refine (proj2 (timer_within_elapsed arg_default env_small 0 world_ticking _ _ _ Hsteady _)).
  vm_compute. reflexivity.
Defined.

(** *** What an epoch does to the network *)

Lemma net_print_log (arg : Arg) (msg_ : msg) (m : state_dict) (g : list Q) E :
  triple (λ s, model s = m ∧ param_groups s = g) (print_log arg msg_)
    (λ _ s, model s = m ∧ param_groups s = g) E.
Proof. intros w Hw. rewrite print_log_eq. cbn. by destruct (arg_print_log arg). Qed.

Lemma net_split_time (m : state_dict) (g : list Q) E :
  triple (λ s, model s = m ∧ param_groups s = g) split_time
    (λ _ s, model s = m ∧ param_groups s = g) E.
Proof. intros w Hw. by rewrite split_time_eq. Qed.

Lemma net_train_batch (arg : Arg) (env : Env) (lr : Q) (n i : Z) (b : batch)
    (acc : Timer * list Q) (m : state_dict) (g : list Q) :
  triple (λ s, model s = m ∧ param_groups s = g) (train_batch arg env lr n i b acc)
    (λ _ s, model s = (train_step env m g b).1 ∧ param_groups s = g) (λ _ _, True).
Proof.
  unfold train_batch. destruct acc as [timer losses].
  eapply triple_bind; [apply net_split_time|]. intros d1.
  eapply (triple_bind _ _ _ (λ w1 s, (model s = m ∧ param_groups s = g)
                                     ∧ model w1 = m ∧ param_groups w1 = g)).
  { apply triple_get. auto. }
  intros w1. apply triple_weaken with
    (P' := λ s, (model w1 = m ∧ param_groups w1 = g) ∧ model s = m ∧ param_groups s = g)
    (Q' := λ _ s, model s = (train_step env m g b).1 ∧ param_groups s = g)
    (E' := λ _ _, True); [|tauto|auto|auto].
  apply triple_pure. intros [<- <-].
  destruct (train_step env (model w1) (param_groups w1) b) as [m' loss]. cbn [fst].
  keep (λ s, model s = m' ∧ param_groups s = param_groups w1).
  { apply triple_modify. by intros s [_ Hg]. }
  intros ?.
  eapply triple_bind; [apply net_split_time|]. intros d2.
  keep (λ s, model s = m' ∧ param_groups s = param_groups w1).
  { apply triple_lift. intros s Hs. by destruct (Py.mod_ i (log_interval arg)). }
  intros r.
  keep (λ s, model s = m' ∧ param_groups s = param_groups w1).
  { destruct (r =? 0); [apply net_print_log | by apply triple_ret]. }
  intros ?.
  eapply triple_bind; [apply net_split_time|]. intros d3.
  by apply triple_ret.
Qed.

Lemma net_train_loop (arg : Arg) (env : Env) (lr : Q) (n : Z) (bs : list batch)
    (i : Z) (acc : Timer * list Q) (m : state_dict) (g : list Q) :
  triple (λ s, model s = m ∧ param_groups s = g) (train_loop arg env lr n i bs acc)
    (λ _ s, model s = trained env g bs m ∧ param_groups s = g) (λ _ _, True).
Proof.
  revert i acc m. induction bs as [|b bs IH]; intros i acc m.
  - by apply triple_ret.
  - cbn [train_loop]. eapply triple_bind; [apply net_train_batch|].
    intros acc'. apply IH.
Qed.

Lemma net_train (arg : Arg) (env : Env) (epoch : Z) (save_model : bool)
    (loader : Loader) (m : state_dict) (g : list Q) :
  data_loader env !! "train" = Some loader →
  triple (λ s, model s = m ∧ param_groups s = g) (train arg env epoch save_model)
    (λ _ s,
       let groups := map (λ _, learning_rate (base_lr arg) epoch (step arg)) g in
       model s = trained env groups (batches loader epoch) m ∧ param_groups s = groups)
    (λ _ _, True).
Proof.
  intros Hloader. unfold train, train_batches. cbn zeta.
  set (groups := map (λ _, learning_rate (base_lr arg) epoch (step arg)) g).
  keep (λ s, model s = trained env groups (batches loader epoch) m
             ∧ param_groups s = groups).
  { eapply triple_bind; [apply net_print_log|]. intros ?.
    unfold get_loader. rewrite Hloader.
    apply triple_bind_ret.
    eapply (triple_bind _ _ _ (λ w1 s, (model s = m ∧ param_groups s = g)
                                       ∧ param_groups w1 = g)).
    { apply triple_get. tauto. }
    intros w1. apply triple_weaken with
      (P' := λ s, param_groups w1 = g ∧ model s = m ∧ param_groups s = g)
      (Q' := λ _ s, model s = trained env groups (batches loader epoch) m
                    ∧ param_groups s = groups)
      (E' := λ _ _, True); [|tauto|auto|auto].
    apply triple_pure. intros Hg. rewrite Hg.
    unfold adjust_learning_rate.
    destruct (_ || _); [|intros s ?; unfold mbind, Exec_bind, lift; done].
    apply triple_bind_ret. cbn zeta.
    keep (λ s, model s = m ∧ param_groups s = groups).
    { apply triple_modify. by intros s [Hm _]. }
    intros ?.
    keep (λ s, model s = m ∧ param_groups s = groups).
    { intros s Hs. by rewrite record_time_eq. }
    intros ?. apply net_train_loop. }
  intros [timer loss_value].
  keep (λ s, model s = trained env groups (batches loader epoch) m
             ∧ param_groups s = groups).
  { apply triple_lift. intros s Hs. by destruct (proportion timer). }
  intros p.
  eapply triple_bind; [apply net_print_log|]. intros ?.
  eapply triple_bind; [apply net_print_log|]. intros ?.
  destruct save_model; [|by apply triple_ret].
  unfold save_checkpoint.
  keep (λ s, model s = trained env groups (batches loader epoch) m
             ∧ param_groups s = groups); [by apply triple_get|].
  intros w1.
  keep (λ s, model s = trained env groups (batches loader epoch) m
             ∧ param_groups s = groups).
  { unfold pickle_dump. by apply triple_modify. }
  intros ?. apply net_print_log.
Qed.

(** X13. An epoch that [train] completes has first set every parameter
    group to the rate of the epoch and then trained the network on each
    batch of the loader once, in the loader's order, at that rate; writing
    the checkpoint and the log lines changes neither the network nor the
    rates. *)
Theorem train_applies_every_batch (arg : Arg) (env : Env) (epoch : Z)
    (save_model : bool) (loader : Loader) (w w' : World) :
  data_loader env !! "train" = Some loader →
  train arg env epoch save_model w = (Ok (), w') →
  param_groups w'
  = map (λ _, learning_rate (base_lr arg) epoch (step arg)) (param_groups w)
  ∧ model w'
    = fold_left
        (λ m b, (train_step env m
                   (map (λ _, learning_rate (base_lr arg) epoch (step arg))
                      (param_groups w)) b).1)
        (batches loader epoch) (model w).
Proof.
  intros Hloader Hrun.
  pose proof (net_train arg env epoch save_model loader (model w) (param_groups w)
                Hloader w (conj eq_refl eq_refl)) as Hnet.
  rewrite Hrun in Hnet. cbn zeta in Hnet. by destruct Hnet.
Qed.

Lemma train_applies_every_batch_witness :
  ∃ w', train arg_default env_count 0 false world_ticking = (Ok (), w')
    ∧ data_loader env_count !! "train" = Some loader_two
    ∧ param_groups w' = [learning_rate (1 # 100) 0 [20; 40; 60]]
    ∧ model w' = {[ "fc.weight" := [1; 1; 1]%Q ]}.
Proof.
  assert (Hloader : data_loader env_count !! "train" = Some loader_two)
    by (vm_compute; reflexivity).
  destruct (train arg_default env_count 0 false world_ticking) as [[[]|e] w'] eqn:Hrun;
    [|vm_compute in Hrun; discriminate].
  exists w'. split; [reflexivity|]. split; [exact Hloader|].
  destruct (train_applies_every_batch _ _ _ _ _ _ _ Hloader Hrun) as [Hg Hm].
  rewrite Hg, Hm. split; vm_compute; reflexivity.
Defined.

(** *** The edges of [train] *)

Lemma adjust_learning_rate_ok (arg : Arg) (groups : list Q) (epoch : Z) :
  optimizer arg = "SGD" ∨ optimizer arg = "Adam" →
  adjust_learning_rate arg groups epoch
  = Ok (learning_rate (base_lr arg) epoch (step arg),
        map (λ _, learning_rate (base_lr arg) epoch (step arg)) groups).
Proof.
  intros Ho. unfold adjust_learning_rate.
  destruct Ho as [Ho|Ho]; rewrite Ho; by repeat case_bool_decide.
Qed.

(** [train] up to the first batch. *)
Lemma train_batches_eq (arg : Arg) (env : Env) (epoch : Z) (loader : Loader)
    (w : World) :
  data_loader env !! "train" = Some loader →
  optimizer arg = "SGD" ∨ optimizer arg = "Adam" →
  train_batches arg env epoch w
  = let lr := learning_rate (base_lr arg) epoch (step arg) in
    let w1 := (print_log arg (TrainingEpoch (epoch + 1)) w).2 in
    let w2 := set_cur_time (now w (S (ticks w)))
                (set_ticks (S (S (ticks w)))
                   (set_param_groups (map (λ _, lr) (param_groups w)) w1)) in
    train_loop arg env lr (Z.of_nat (length (batches loader epoch))) 0
      (batches loader epoch) (timer_seed, []) w2.
Proof.
  intros Hloader Ho. unfold train_batches, mbind, Exec_bind.
  rewrite print_log_eq. cbn [snd]. cbn zeta.
  unfold get_loader. rewrite Hloader. unfold mret, Exec_ret, get, lift.
  rewrite (adjust_learning_rate_ok arg _ epoch Ho). unfold modify.
  rewrite record_time_eq.
  by destruct (arg_print_log arg).
Qed.

(** X14. With [--log-interval 0] the remainder of line 176 has no value:
    on a loader that is not empty [train] raises [ZeroDivisionError] at the
    first batch, after the optimizer has stepped on that batch once. Only
    the line ['Training epoch'] has been printed, and appended to [log.txt]
    when [print_log] is set; no other file is touched ([files] holds every
    file but [log.txt]), so no checkpoint is written, also when one was
    due. *)
Theorem train_zero_log_interval (arg : Arg) (env : Env) (epoch : Z)
    (save_model : bool) (loader : Loader) (b : batch) (bs : list batch) (w : World) :
  log_interval arg = 0 →
  data_loader env !! "train" = Some loader →
  batches loader epoch = b :: bs →
  optimizer arg = "SGD" ∨ optimizer arg = "Adam" →
  ∃ w', train arg env epoch save_model w = (Raise ZeroDivisionError, w')
    ∧ model w'
      = (train_step env (model w)
           (map (λ _, learning_rate (base_lr arg) epoch (step arg)) (param_groups w))
           b).1
    ∧ files w' = files w
    ∧ stdout w' = stdout w ++ [Stamped (now w (ticks w)) (TrainingEpoch (epoch + 1))]
    ∧ log_txt w'
      = log_txt w
        ++ (if arg_print_log arg
            then [Stamped (now w (ticks w)) (TrainingEpoch (epoch + 1))] else []).
Proof.
  intros Hlog Hloader Hbs Ho. unfold train, mbind, Exec_bind.
  rewrite (train_batches_eq arg env epoch loader w Hloader Ho). cbn zeta.
  rewrite Hbs. cbn [train_loop]. unfold mbind, Exec_bind, train_batch.
  unfold mbind, Exec_bind. rewrite split_time_eq. unfold get.
  rewrite print_log_eq. cbn [snd]. cbn zeta.
  match goal with
  | |- context [train_step env ?m ?g b] =>
      destruct (train_step env m g b) as [m' loss] eqn:Hstep
  end.
  unfold modify. rewrite split_time_eq. unfold lift, Py.mod_. rewrite Hlog.
  cbn [Z.eqb]. eexists. split; [reflexivity|].
  destruct (arg_print_log arg); cbn in Hstep |- *; rewrite Hstep, ?app_nil_r; done.
Qed.

Lemma train_zero_log_interval_witness :
  ∃ w', train arg_no_log env_count 0 true world_ticking = (Raise ZeroDivisionError, w')
    ∧ model w' = {[ "fc.weight" := [1; 1]%Q ]}
    ∧ files w' = ∅
    ∧ log_txt w' = [Stamped 0 (TrainingEpoch 1)].
Proof.
  assert (Hloader : data_loader env_count !! "train" = Some loader_two)
    by (vm_compute; reflexivity).
  destruct (train_zero_log_interval arg_no_log env_count 0 true loader_two
              ([0%Q], [0]) [([1%Q], [1])] world_ticking eq_refl Hloader eq_refl
              (or_introl eq_refl)) as (w' & Hrun & Hm & Hf & _ & Hl).
  exists w'. split; [exact Hrun|]. rewrite Hm, Hf, Hl.
  repeat split; vm_compute; reflexivity.
Defined.

(** X15. On a loader without a batch [train] returns: the network is as it
    was, the mean of no loss is printed as [nan] and each bucket as a third
    of the time, so the lines printed are the three below; they are appended
    to [log.txt] when [print_log] is set, and no other file is touched
    ([files] holds every file but [log.txt]). *)
Theorem train_empty_loader (arg : Arg) (env : Env) (epoch : Z) (loader : Loader)
    (w : World) :
  data_loader env !! "train" = Some loader →
  batches loader epoch = [] →
  optimizer arg = "SGD" ∨ optimizer arg = "Adam" →
  ∃ w' new,
    train arg env epoch false w = (Ok (), w')
    ∧ new = [Stamped (now w (ticks w)) (TrainingEpoch (epoch + 1));
             Stamped (now w (2 + ticks w)%nat) (MeanTrainingLoss None);
             Stamped (now w (3 + ticks w)%nat) (TimeConsumption 33 33)]
    ∧ model w' = model w
    ∧ files w' = files w
    ∧ stdout w' = stdout w ++ new
    ∧ log_txt w' = log_txt w ++ (if arg_print_log arg then new else []).
Proof.
  intros Hloader Hbs Ho. unfold train, mbind, Exec_bind.
  rewrite (train_batches_eq arg env epoch loader w Hloader Ho). cbn zeta.
  rewrite Hbs. cbn [train_loop]. unfold mret, Exec_ret.
  assert (Hp : proportion timer_seed
               = Ok {| p_dataloader := 33; p_model := 33; p_statistics := 33 |})
    by (vm_compute; reflexivity).
  unfold lift. rewrite Hp. rewrite !print_log_eq. cbn [snd Np.mean]. cbn zeta.
  eexists _, _. split; [reflexivity|]. split; [reflexivity|].
  destruct (arg_print_log arg); cbn; rewrite <- ?app_assoc, ?app_nil_r; done.
Qed.

Lemma train_empty_loader_witness :
  ∃ w', train arg_default env_empty 0 false world_ticking = (Ok (), w')
    ∧ model w' = model world_ticking
    ∧ stdout w'
      = [Stamped 0 (TrainingEpoch 1); Stamped 2 (MeanTrainingLoss None);
         Stamped 3 (TimeConsumption 33 33)]
    ∧ log_txt w' = stdout w'.
Proof.
  assert (Hloader : data_loader env_empty !! "train" = Some loader_empty)
    by (vm_compute; reflexivity).
  destruct (train_empty_loader arg_default env_empty 0 loader_empty world_ticking
              Hloader eq_refl (or_introl eq_refl))
    as (w' & new & Hrun & -> & Hm & _ & Hout & Hl).
  exists w'. split; [exact Hrun|]. split; [exact Hm|]. rewrite Hout, Hl.
  split; reflexivity.
Defined.

(** ** The edges of [eval] *)

(** The body of the loop over the splits, on a split that cannot be
    evaluated: nothing has happened when it raises. *)
Lemma eval_split_raises_empty (arg : Arg) (env : Env) (epoch : Z) (save_score : bool)
    (ln : string) (loader : Loader) (w : World) :
  data_loader env !! ln = Some loader →
  batches loader epoch = [] →
  eval_split arg env epoch save_score ln w = (Raise ValueError, w).
Proof.
  intros Hloader Hbs. unfold eval_split, mbind, Exec_bind, get_loader.
  rewrite Hloader. unfold mret, Exec_ret, get. by rewrite Hbs.
Qed.

Lemma eval_split_raises_unknown (arg : Arg) (env : Env) (epoch : Z) (save_score : bool)
    (ln : string) (w : World) :
  data_loader env !! ln = None →
  eval_split arg env epoch save_score ln w = (Raise (KeyError ln), w).
Proof.
  intros Hloader. unfold eval_split, mbind, Exec_bind, get_loader. by rewrite Hloader.
Qed.

(** X16. A split without a batch cannot be evaluated: [np.concatenate]
    raises [ValueError] on the empty list of outputs. Only the line
    ['Eval epoch'] has been printed by then, no score file is written and
    the splits that follow are not looked at. *)
Theorem eval_empty_split (arg : Arg) (env : Env) (epoch : Z) (save_score : bool)
    (ln : string) (rest : list string) (loader : Loader) (w : World) :
  data_loader env !! ln = Some loader →
  batches loader epoch = [] →
  ∃ w', eval arg env epoch save_score (ln :: rest) w = (Raise ValueError, w')
    ∧ files w' = files w
    ∧ model w' = model w
    ∧ stdout w' = stdout w ++ [Stamped (now w (ticks w)) (EvalEpoch (epoch + 1))].
Proof.
  intros Hloader Hbs. unfold eval, mbind, Exec_bind.
  rewrite print_log_eq. cbn zeta. cbn [for_]. unfold mbind, Exec_bind.
  rewrite (eval_split_raises_empty arg env epoch save_score ln loader _ Hloader Hbs).
  eexists. split; [reflexivity|]. by destruct (arg_print_log arg).
Qed.

Lemma eval_empty_split_witness :
  ∃ w', eval arg_test env_empty 3 true ["test"] world_ticking = (Raise ValueError, w')
    ∧ files w' = ∅
    ∧ stdout w' = [Stamped 0 (EvalEpoch 4)].
Proof.
  assert (Hloader : data_loader env_empty !! "test" = Some loader_empty)
    by (vm_compute; reflexivity).
  destruct (eval_empty_split arg_test env_empty 3 true "test" [] loader_empty
              world_ticking Hloader eq_refl) as (w' & Hrun & Hf & _ & Hout).
  exists w'. split; [exact Hrun|]. rewrite Hf, Hout. split; reflexivity.
Defined.

(** X17. A split that [load_data] has not built (it builds ['train'] and
    ['test'] only) raises [KeyError] with its name, after the line
    ['Eval epoch'] and before anything is computed or written. *)
Theorem eval_unknown_split (arg : Arg) (env : Env) (epoch : Z) (save_score : bool)
    (ln : string) (rest : list string) (w : World) :
  data_loader env !! ln = None →
  ∃ w', eval arg env epoch save_score (ln :: rest) w = (Raise (KeyError ln), w')
    ∧ files w' = files w
    ∧ model w' = model w
    ∧ stdout w' = stdout w ++ [Stamped (now w (ticks w)) (EvalEpoch (epoch + 1))].
Proof.
  intros Hloader. unfold eval, mbind, Exec_bind.
  rewrite print_log_eq. cbn zeta. cbn [for_]. unfold mbind, Exec_bind.
  rewrite (eval_split_raises_unknown arg env epoch save_score ln _ Hloader).
  eexists. split; [reflexivity|]. by destruct (arg_print_log arg).
Qed.

Lemma eval_unknown_split_witness :
  data_loader env_small !! "eval" = None
  ∧ ∃ w', eval arg_default env_small 0 false ["eval"] world_ticking
          = (Raise (KeyError "eval"), w')
      ∧ files w' = ∅.
Proof.
  assert (Hloader : data_loader env_small !! "eval" = None) by (vm_compute; reflexivity).
  split; [exact Hloader|].
  destruct (eval_unknown_split arg_default env_small 0 false "eval" [] world_ticking
              Hloader) as (w' & Hrun & Hf & _).
  exists w'. split; [exact Hrun|]. by rewrite Hf.
Defined.

(** ** More on the epoch loop *)

Lemma range_empty (lo hi : Z) : hi ≤ lo → Py.range lo hi = [].
Proof. intros H. unfold Py.range. by replace (Z.to_nat (hi - lo)) with 0%nat by lia. Qed.

Lemma range_cons (lo hi : Z) : lo < hi → Py.range lo hi = lo :: Py.range (lo + 1) hi.
Proof.
  intros H. unfold Py.range.
  replace (Z.to_nat (hi - lo)) with (S (Z.to_nat (hi - (lo + 1)))) by lia.
  cbn [seq map]. f_equal; [lia|].
  rewrite <- seq_shift, map_map. apply map_ext. intros i. lia.
Qed.

Lemma range_app (lo k hi : Z) :
  lo ≤ k ≤ hi → Py.range lo hi = Py.range lo k ++ Py.range k hi.
Proof.
  intros H. remember (Z.to_nat (k - lo)) as n eqn:Hn.
  revert lo H Hn. induction n as [|n IH]; intros lo H Hn.
  - assert (lo = k) as -> by lia. by rewrite (range_empty k k).
  - rewrite (range_cons lo hi), (range_cons lo k) by lia.
    cbn [app]. f_equal. apply IH; lia.
Qed.

(** X18. [start] does nothing at all, and so cannot fail, in two cases: a
    phase that is neither ['train'] nor ['test'], and a training phase whose
    first epoch is not below [num_epoch]; the intervals are not even looked
    at then, so a zero interval goes unnoticed. *)
Theorem start_nothing_to_do (arg : Arg) (env : Env) (w : World) :
  (phase arg ≠ "train" ∧ phase arg ≠ "test")
  ∨ (phase arg = "train" ∧ num_epoch arg ≤ start_epoch arg) →
  start arg env w = (Ok (), w) ∧ start_calls arg = (Ok (), []).
Proof.
  intros [[Htrain Htest]|[Htrain Hle]]; unfold start, start_calls, start_with.
  - by rewrite !bool_decide_eq_false_2.
  - rewrite !bool_decide_eq_true_2 by done. by rewrite range_empty.
Qed.

Lemma start_nothing_to_do_witness :
  start (with_start_epoch 80 arg_no_log) env_small world_ticking = (Ok (), world_ticking).
Proof.
  apply (start_nothing_to_do (with_start_epoch 80 arg_no_log) env_small world_ticking).
  right. split; [reflexivity|]. cbn. lia.
Defined.

Lemma start_calls_train (arg : Arg) :
  phase arg = "train" → save_interval arg ≠ 0 → eval_interval arg ≠ 0 →
  start_calls arg
  = (Ok (), flat_map (epoch_calls arg) (Py.range (start_epoch arg) (num_epoch arg))).
Proof.
  intros Hphase Hsave Heval. unfold start_calls.
  rewrite (phase_train arg Hphase), for_start_epoch_body by done.
  apply run_calls_record.
Qed.

Lemma call_epoch_calls (arg : Arg) (es : list Z) (c : call) :
  c ∈ flat_map (epoch_calls arg) es → call_epoch c ∈ es.
Proof.
  intros (e & He & Hc)%elem_of_flat_map_calls.
  apply elem_of_epoch_calls in Hc as [->|[_ ->]]; exact He.
Qed.

(** X19. The schedule depends on the number of an epoch and not on where
    the run began: a run resumed with [--start-epoch k] makes exactly the
    calls that the longer run makes from epoch [k] on, and the longer run
    makes its other calls, all for epochs below [k], before them. *)
Theorem start_resumed_schedule (arg : Arg) (k : Z) :
  phase arg = "train" →
  save_interval arg ≠ 0 →
  eval_interval arg ≠ 0 →
  start_epoch arg ≤ k ≤ num_epoch arg →
  ∃ before : list call,
    (start_calls arg).2 = before ++ (start_calls (with_start_epoch k arg)).2
    ∧ (∀ c, c ∈ before → start_epoch arg ≤ call_epoch c < k)
    ∧ (∀ c, c ∈ (start_calls (with_start_epoch k arg)).2 →
            k ≤ call_epoch c < num_epoch arg).
Proof.
  intros Hphase Hsave Heval Hk.
  rewrite (start_calls_train arg Hphase Hsave Heval).
  rewrite (start_calls_train (with_start_epoch k arg) Hphase Hsave Heval).
  cbn [snd start_epoch num_epoch with_start_epoch].
  change (epoch_calls (with_start_epoch k arg)) with (epoch_calls arg).
  exists (flat_map (epoch_calls arg) (Py.range (start_epoch arg) k)).
  rewrite (range_app (start_epoch arg) k (num_epoch arg) Hk), flat_map_app.
  split; [done|].
  split; intros c Hc%call_epoch_calls; by apply elem_of_range in Hc.
Qed.

Lemma start_resumed_schedule_witness :
  ∃ before : list call,
    (start_calls arg_short).2 = before ++ (start_calls (with_start_epoch 2 arg_short)).2
    ∧ before = [CallTrain 0 false; CallTrain 1 true; CallEval 1 true ["test"]]
    ∧ (start_calls (with_start_epoch 2 arg_short)).2
      = [CallTrain 2 true; CallEval 2 true ["test"]].
Proof.
  assert (Hk : start_epoch arg_short ≤ 2 ≤ num_epoch arg_short) by (cbn; lia).
  destruct (start_resumed_schedule arg_short 2 eq_refl ltac:(done) ltac:(done) Hk)
    as (before & Heq & _ & _).
  exists before. split; [exact Heq|].
  assert (Hres : (start_calls (with_start_epoch 2 arg_short)).2
                 = [CallTrain 2 true; CallEval 2 true ["test"]]) by (vm_compute; reflexivity).
  split; [|exact Hres].
  rewrite Hres in Heq.
  assert (Hall : (start_calls arg_short).2
                 = [CallTrain 0 false; CallTrain 1 true; CallEval 1 true ["test"]]
                   ++ [CallTrain 2 true; CallEval 2 true ["test"]])
    by (vm_compute; reflexivity).
  rewrite Hall in Heq. by apply app_inv_tail in Heq.
Defined.

(** ** More on evaluation *)

Lemma dict_lookup_last {V} (pairs : list (string * V)) (i : nat) (k : string) (v : V) :
  pairs !! i = Some (k, v) →
  (∀ j v', (i < j)%nat → pairs !! j ≠ Some (k, v')) →
  Py.dict pairs !! k = Some v.
Proof.
  revert i. induction pairs as [|[k' v'] pairs IH] using rev_ind; intros i Hi Hlast.
  - by rewrite lookup_nil in Hi.
  - rewrite dict_snoc. cbn [fst snd].
    destruct (decide (i < length pairs)%nat) as [Hlt|Hge].
    + rewrite lookup_app_l in Hi by done.
      assert (k' ≠ k) as Hne.
      { intros ->. apply (Hlast (length pairs) v' Hlt).
        by rewrite lookup_app_r, Nat.sub_diag by lia. }
      rewrite lookup_insert_ne by done. apply (IH i Hi).
      intros j v'' Hj Hlook. apply (Hlast j v'' Hj).
      rewrite lookup_app_l; [done|]. by eapply lookup_lt_Some.
    + assert (i = length pairs) as ->.
      { apply lookup_lt_Some in Hi. rewrite length_app in Hi. cbn in Hi. lia. }
      rewrite lookup_app_r, Nat.sub_diag in Hi by lia. injection Hi as -> ->.
      by rewrite lookup_insert_eq.
Qed.

(** X20. When a sample name occurs more than once, the score record holds
    under it the row of its last occurrence among the names that have a
    row: [dict] keeps the later of two pairs with the same key. *)
Theorem score_dict_last_wins (names : list string) (score : list tensor) (i : nat)
    (name : string) (row : tensor) :
  names !! i = Some name →
  score !! i = Some row →
  (∀ j, (i < j)%nat → (j < length score)%nat → names !! j ≠ Some name) →
  score_dict names score !! name = Some row.
Proof.
  intros Hname Hrow Hlast. unfold score_dict.
  apply (dict_lookup_last _ i).
  - by apply lookup_zip.
  - intros j row' Hj [Hn Hs]%lookup_zip. apply (Hlast j Hj); [|done].
    by eapply lookup_lt_Some.
Qed.

Lemma score_dict_last_wins_witness :
  score_dict ["a"; "b"; "a"] [[1%Q]; [2%Q]; [3%Q]] !! "a" = Some [3%Q]
  ∧ score_dict ["a"; "b"; "a"] [[1%Q]; [2%Q]] !! "a" = Some [1%Q].
Proof.
  split.
  - apply (score_dict_last_wins _ _ 2); [reflexivity | reflexivity |].
    intros j Hj Hlen. cbn in Hlen. lia.
  - apply (score_dict_last_wins _ _ 0); [reflexivity | reflexivity |].
    intros j Hj Hlen. cbn in Hlen. assert (j = 1%nat) as -> by lia. discriminate.
Defined.

Lemma eval_no_save_files (arg : Arg) (env : Env) (epoch : Z)
    (loader_name : list string) (fs : gmap string string) :
  triple (λ s, files s = fs) (eval arg env epoch false loader_name)
    (λ _ s, files s = fs) (λ _ s, files s = fs).
Proof.
  unfold eval.
  eapply triple_bind; [apply files_print_log|]. intros ?.
  apply triple_for. intros ln _. unfold eval_split.
  keep (λ s, files s = fs).
  { unfold get_loader. destruct (data_loader env !! ln);
      [by apply triple_ret | by apply triple_lift]. }
  intros loader.
  keep (λ s, files s = fs); [by apply triple_get|]. intros w1.
  destruct (eval_batches env (model w1) (batches loader epoch)) as [score_frag loss_value].
  keep (λ s, files s = fs).
  { apply triple_lift. intros s Hs. by destruct (Np.concatenate score_frag). }
  intros score.
  eapply triple_bind; [apply files_print_log|]. intros ?.
  keep (λ s, files s = fs).
  { apply triple_for. intros k _. apply files_print_log. }
  intros ?. by apply triple_ret.
Qed.

(** X21. [eval] only reads the processor: for any list of splits, and also
    when it raises, the parameters of the network, the rates of the
    optimizer and the timer's [cur_time] are as before. The lines it prints
    are appended to [log.txt] when [print_log] is set; without [save_score]
    no other file is touched ([files] holds every file but [log.txt]). *)
Theorem eval_reads_only (arg : Arg) (env : Env) (epoch : Z) (save_score : bool)
    (loader_name : list string) (w : World) :
  model (eval arg env epoch save_score loader_name w).2 = model w
  ∧ param_groups (eval arg env epoch save_score loader_name w).2 = param_groups w
  ∧ cur_time (eval arg env epoch save_score loader_name w).2 = cur_time w
  ∧ (∃ new : list line,
       stdout (eval arg env epoch save_score loader_name w).2 = stdout w ++ new
       ∧ log_txt (eval arg env epoch save_score loader_name w).2
         = log_txt w ++ (if arg_print_log arg then new else []))
  ∧ files (eval arg env epoch false loader_name w).2 = files w.
Proof.
  set (I := λ s : World,
         (model s = model w ∧ param_groups s = param_groups w ∧ cur_time s = cur_time w)
         ∧ log_mirror arg w s).
  assert (Hrun : triple I (eval arg env epoch save_score loader_name) (λ _, I) (λ _, I)).
  { apply (walk_eval arg I (λ _, True)); try done.
    intros m E s [Hs Hlog]. pose proof (log_mirror_print_log arg w m E s Hlog) as Hmirror.
    rewrite print_log_eq in Hmirror |- *. cbn zeta in *.
    split; [|exact Hmirror]. by destruct (arg_print_log arg). }
  specialize (Hrun w (conj (conj eq_refl (conj eq_refl eq_refl)) (log_mirror_refl arg w))).
  pose proof (eval_no_save_files arg env epoch loader_name (files w) w eq_refl) as Hf.
  destruct (eval arg env epoch save_score loader_name w) as [[[]|e] w'];
    destruct (eval arg env epoch false loader_name w) as [[[]|e'] w'']; cbn [snd];
    destruct Hrun as ((? & ? & ?) & ?); done.
Qed.

(** ** The files of a run *)

Lemma string_app_inj_l (a x y : string) : a +:+ x = a +:+ y → x = y.
Proof.
  induction a as [|c a IH]; [done|].
  change (String c (a +:+ x) = String c (a +:+ y) → x = y).
  intros [= H]. by apply IH.
Qed.

Lemma string_app_inj_head (x y t : string) : x +:+ t = y +:+ t → x = y.
Proof.
  intros H.
  assert (Hlen : String.length x = String.length y).
  { apply (f_equal String.length) in H. rewrite !string_length_app in H. lia. }
  revert y H Hlen. induction x as [|c x IH]; intros [|d y] H Hlen; try done.
  change (String c (x +:+ t) = String d (y +:+ t)) in H.
  injection H as -> H. f_equal. apply IH; [done|]. cbn in Hlen. lia.
Qed.

Lemma model_path_inj (arg : Arg) (e e' : Z) :
  model_path arg e = model_path arg e' → e = e'.
Proof.
  unfold model_path. intros H.
  apply string_app_inj_l, string_app_inj_l, string_app_inj_head in H.
  apply (inj pretty) in H. lia.
Qed.

Lemma arg_path_model_path (arg : Arg) (e : Z) : arg_path arg ≠ model_path arg e.
Proof.
  unfold arg_path, model_path. intros H. apply string_app_inj_l in H. discriminate.
Qed.

Lemma arg_path_score_path (arg : Arg) (e : Z) (ln : string) :
  arg_path arg ≠ score_path arg e ln.
Proof.
  unfold arg_path, score_path. intros H. apply string_app_inj_l in H. discriminate.
Qed.

Lemma files_lookup_print_log (arg : Arg) (m : msg) (P : option string → Prop)
    (p : string) E :
  triple (λ s, P (files s !! p)) (print_log arg m) (λ _ s, P (files s !! p)) E.
Proof. intros w Hw. rewrite print_log_eq. cbn. by destruct (arg_print_log arg). Qed.

Lemma arg_path_log_path (arg : Arg) : arg_path arg ≠ log_path arg.
Proof.
  unfold arg_path, log_path. intros H. apply string_app_inj_l in H. discriminate.
Qed.

(** X22. The only files [start] writes are checkpoints, score files and
    [log.txt]: whatever the run does, a file under any other path is left
    as it was, and so is [arg.yaml], which the constructor wrote; and
    [log.txt] is only appended to. ([files] holds every file but [log.txt],
    whose lines are [log_txt].) *)
Theorem start_writes_only (arg : Arg) (env : Env) (w : World) :
  (∀ p : string,
     (∀ e, p ≠ model_path arg e) → (∀ e ln, p ≠ score_path arg e ln) →
     p ≠ log_path arg →
     files (start arg env w).2 !! p = files w !! p)
  ∧ files (start arg env w).2 !! arg_path arg = files w !! arg_path arg
  ∧ ∃ new : list line, log_txt (start arg env w).2 = log_txt w ++ new.
Proof.
  assert (Hgen : ∀ p : string,
            (∀ e, p ≠ model_path arg e) → (∀ e ln, p ≠ score_path arg e ln) →
            files (start arg env w).2 !! p = files w !! p).
  { intros p Hmodel Hscore.
    assert (Hrun : triple (λ s, files s !! p = files w !! p) (start arg env)
                     (λ _ s, files s !! p = files w !! p)
                     (λ _ s, files s !! p = files w !! p)).
    { apply (walk_start arg _ (λ path, path ≠ p)); try done.
      - intros path data s Hpath Hs. cbn. by rewrite lookup_insert_ne.
      - intros m E. apply (files_lookup_print_log arg m (λ o, o = files w !! p)). }
    specialize (Hrun w eq_refl). by destruct (start arg env w) as [[[]|e] w']. }
  assert (Hfull : ∀ p : string,
            (∀ e, p ≠ model_path arg e) → (∀ e ln, p ≠ score_path arg e ln) →
            p ≠ log_path arg →
            files (start arg env w).2 !! p = files w !! p)
    by (intros p Hmodel Hscore ?; by apply Hgen).
  split; [exact Hfull|].
  split; [apply Hfull;
            [apply arg_path_model_path | apply arg_path_score_path
            | apply arg_path_log_path]|].
  assert (Hrun : triple (log_mirror arg w) (start arg env)
                   (λ _, log_mirror arg w) (λ _, log_mirror arg w)).
  { apply (walk_start arg (log_mirror arg w) (λ _, True)); try done.
    intros m E. apply log_mirror_print_log. }
  specialize (Hrun w (log_mirror_refl arg w)).
  destruct (start arg env w) as [[[]|e] w']; cbn [snd];
    destruct Hrun as (new & _ & Hlog); eauto.
Qed.

(** X23. Each epoch has a checkpoint file of its own: training another
    epoch, with or without a checkpoint, leaves the checkpoint of this one
    as it was. *)
Theorem train_keeps_other_checkpoints (arg : Arg) (env : Env) (e e' : Z)
    (save_model : bool) (w : World) :
  e ≠ e' →
  model_path arg e ≠ model_path arg e'
  ∧ files (train arg env e' save_model w).2 !! model_path arg e
    = files w !! model_path arg e.
Proof.
  intros Hne.
  assert (Hpath : model_path arg e ≠ model_path arg e')
    by (intros H; by apply model_path_inj in H).
  split; [exact Hpath|].
  pose proof (train_files arg env e' save_model (files w) w eq_refl) as Hf.
  destruct (train arg env e' save_model w) as [[[]|x] w']; cbn [snd]; rewrite Hf; [|done].
  destruct save_model; [|done]. by rewrite lookup_insert_ne.
Qed.

Lemma train_keeps_other_checkpoints_witness :
  files (train arg_default env_small 10 true
           (set_files {[ model_path arg_default 9 := "previous" ]} world_ticking)).2
    !! "work/epoch10_model.pkl"
  = Some "previous".
Proof.
  assert (Hne : 9 ≠ 10) by lia.
  destruct (train_keeps_other_checkpoints arg_default env_small 9 10 true
              (set_files {[ model_path arg_default 9 := "previous" ]} world_ticking) Hne)
    as [_ H].
  change "work/epoch10_model.pkl" with (model_path arg_default 9).
  rewrite H. vm_compute. reflexivity.
Defined.

(** What a run that returns has gone through. *)
Lemma run_calls_ok_split {S : Type} (train_ : Z → bool → Exec S unit)
    (eval_ : Z → bool → list string → Exec S unit) (before after : list call)
    (c : call) (s s' : S) :
  run_calls train_ eval_ (before ++ c :: after) s = (Ok (), s') →
  ∃ s1 s2, run_calls train_ eval_ before s = (Ok (), s1)
        ∧ run_call train_ eval_ c s1 = (Ok (), s2)
        ∧ run_calls train_ eval_ after s2 = (Ok (), s').
Proof.
  unfold run_calls. rewrite for_app. unfold mbind, Exec_bind.
  destruct (for_ before _ s) as [[[]|x] s1] eqn:Hbefore; [|done].
  cbn [for_]. unfold mbind, Exec_bind.
  destruct (run_call train_ eval_ c s1) as [[[]|x] s2] eqn:Hcall; [|done].
  intros H. by exists s1, s2.
Qed.

Lemma eval_ok_writes (arg : Arg) (env : Env) (epoch : Z) (ln : string) (w w' : World) :
  eval arg env epoch true [ln] w = (Ok (), w') →
  is_Some (files w' !! score_path arg epoch ln).
Proof.
  intros Hrun. destruct (data_loader env !! ln) as [loader|] eqn:Hloader.
  - destruct (batches loader epoch) as [|b bs] eqn:Hbs.
    + rewrite eval_one_split in Hrun. unfold mbind, Exec_bind in Hrun.
      rewrite print_log_eq in Hrun.
      by rewrite (eval_split_raises_empty _ _ _ _ _ loader) in Hrun.
    + destruct (eval_persists arg env epoch true ln loader w Hloader) as (w1 & Hok & _ & Hf).
      { by rewrite Hbs. }
      rewrite Hok in Hrun. injection Hrun as <-. rewrite Hf, lookup_insert_eq. eauto.
  - rewrite eval_one_split in Hrun. unfold mbind, Exec_bind in Hrun.
    rewrite print_log_eq in Hrun.
    by rewrite eval_split_raises_unknown in Hrun.
Qed.

Lemma run_calls_leaves_file (arg : Arg) (env : Env) (calls : list call) (c : call)
    (p : string) (w w' : World) :
  c ∈ calls →
  (∀ w1 w2, run_call (train arg env) (eval arg env) c w1 = (Ok (), w2) →
            is_Some (files w2 !! p)) →
  run_calls (train arg env) (eval arg env) calls w = (Ok (), w') →
  is_Some (files w' !! p).
Proof.
  intros (before & after & ->)%list_elem_of_split Hc Hrun.
  apply run_calls_ok_split in Hrun as (w1 & w2 & _ & Hcall & Hafter).
  assert (Hkeep : triple (λ s, is_Some (files s !! p))
                    (run_calls (train arg env) (eval arg env) after)
                    (λ _ s, is_Some (files s !! p)) (λ _ s, is_Some (files s !! p))).
  { apply (walk_run_calls arg _ (λ _, True)); try done.
    - intros path data s _ Hs. cbn. destruct (decide (path = p)) as [->|Hne].
      + rewrite lookup_insert_eq. eauto.
      + by rewrite lookup_insert_ne.
    - intros m E. apply (files_lookup_print_log arg m is_Some). }
  specialize (Hkeep w2 (Hc w1 w2 Hcall)). by rewrite Hafter in Hkeep.
Qed.

(** X24. A training run that returns has left on disk the checkpoint of
    every epoch that was due one and the score file of every epoch that was
    due an evaluation; among them those of the last epoch, which is always
    due both. *)
Theorem start_leaves_files (arg : Arg) (env : Env) (w w' : World) :
  phase arg = "train" →
  save_interval arg ≠ 0 →
  eval_interval arg ≠ 0 →
  start arg env w = (Ok (), w') →
  (∀ e, start_epoch arg ≤ e < num_epoch arg →
        (due arg (save_interval arg) e → is_Some (files w' !! model_path arg e))
        ∧ (due arg (eval_interval arg) e →
           is_Some (files w' !! score_path arg e "test")))
  ∧ (start_epoch arg < num_epoch arg →
     is_Some (files w' !! model_path arg (num_epoch arg - 1))
     ∧ is_Some (files w' !! score_path arg (num_epoch arg - 1) "test")).
Proof.
  intros Hphase Hsave Heval Hrun.
  unfold start in Hrun. rewrite (phase_train arg Hphase), for_start_epoch_body in Hrun by done.
  assert (Hall : ∀ e, start_epoch arg ≤ e < num_epoch arg →
            (due arg (save_interval arg) e → is_Some (files w' !! model_path arg e))
            ∧ (due arg (eval_interval arg) e →
               is_Some (files w' !! score_path arg e "test"))).
  { intros e He. split; intros Hdue.
    - apply (run_calls_leaves_file arg env
               (flat_map (epoch_calls arg) (Py.range (start_epoch arg) (num_epoch arg)))
               (CallTrain e true) _ w w'); [| |exact Hrun].
      + apply elem_of_flat_map_calls. exists e. split; [by apply elem_of_range|].
        apply elem_of_epoch_calls. left. by rewrite bool_decide_eq_true_2.
      + intros w1 w2 Hcall. cbn [run_call] in Hcall.
        pose proof (train_files arg env e true (files w1) w1 eq_refl) as Hf.
        rewrite Hcall in Hf. rewrite Hf, lookup_insert_eq. eauto.
    - apply (run_calls_leaves_file arg env
               (flat_map (epoch_calls arg) (Py.range (start_epoch arg) (num_epoch arg)))
               (CallEval e true ["test"]) _ w w'); [| |exact Hrun].
      + apply elem_of_flat_map_calls. exists e. split; [by apply elem_of_range|].
        apply elem_of_epoch_calls. by right.
      + intros w1 w2 Hcall. cbn [run_call] in Hcall. by eapply eval_ok_writes. }
  split; [exact Hall|]. intros Hlt.
  destruct (Hall (num_epoch arg - 1)) as [H1 H2]; [lia|].
  split; [apply H1 | apply H2]; right; lia.
Qed.

Lemma start_leaves_files_witness :
  ∃ w', start arg_short env_small world_ticking = (Ok (), w')
    ∧ is_Some (files w' !! "work/epoch2_model.pkl")
    ∧ is_Some (files w' !! "work/epoch3_model.pkl")
    ∧ is_Some (files w' !! "work/epoch3_test_score.pkl")
    ∧ files w' !! "work/epoch1_model.pkl" = None.
Proof.
  destruct (start arg_short env_small world_ticking) as [[[]|x] w'] eqn:Hrun;
    [|vm_compute in Hrun; discriminate].
  exists w'. split; [reflexivity|].
  destruct (start_leaves_files arg_short env_small world_ticking w'
              eq_refl ltac:(done) ltac:(done) Hrun) as [Hall Hlast].
  destruct (Hall 1) as [Hm _]; [cbn; lia|].
  destruct Hlast as [Hm3 Hs3]; [cbn; lia|].
  split; [apply Hm; left; reflexivity|]. split; [exact Hm3|]. split; [exact Hs3|].
  vm_compute in Hrun. injection Hrun as <-. vm_compute. reflexivity.
Defined.
